(** * mom.codec: Base58, Base62, ASCII85 and RFC1924 Base85 codecs

    A shallow embedding of [mom/codec/base85.py] and [mom/codec/_alt_base.py]
    and the properties of the codecs that follow from the code.

    Conventions of the embedding:
    - a Python byte string is a [list byte]; indexing or iterating it yields
      one-character byte strings (the Python 2 reading the modules were
      written for), modelled as single [byte]s;
    - Python integers are [Z]; [//] and [%] with a positive divisor are
      [Z.div] and [Z.modulo];
    - a function that can raise returns a [result]: [Ok v] or [Raise e] with
      [e] the exception class;
    - the models of the functions take typed arguments, which pass the
      [is_bytes] and [is_integer] guards the source functions begin with;
      the section on the type guards has the guards themselves, for the
      functions whose every way of failing is stated. *)

From Stdlib Require Import ZArith List Bool Lia.
From Stdlib Require Import Strings.Byte.
From Stdlib Require Strings.String.
Import ListNotations.
Import String.StringSyntax.

Local Open Scope string_scope.

Local Open Scope Z_scope.

(** ** Python primitives *)

Definition bytes := list byte.

Inductive exn : Type :=
| TypeError
| ValueError
| OverflowError
| KeyError.

Inductive result (A : Type) : Type :=
| Ok (value : A)
| Raise (e : exn).

Arguments Ok {A} value.
Arguments Raise {A} e.

Definition bind {A B : Type} (r : result A) (k : A -> result B) : result B :=
  match r with
  | Ok v => k v
  | Raise e => Raise e
  end.

Notation "x <- r ;; k" := (bind r (fun x => k))
  (at level 61, r at next level, right associativity).

(** [try: r except KeyError: raise e]. *)
Definition except_KeyError {A : Type} (r : result A) (e : exn) : result A :=
  match r with
  | Raise KeyError => Raise e
  | _ => r
  end.

Definition ord (c : byte) : Z := Z.of_N (Byte.to_N c).

Definition chr (n : Z) : byte :=
  match Byte.of_N (Z.to_N n) with
  | Some c => c
  | None => x00
  end.

(** [mom.builtins.b]: a byte-string literal. *)
Definition b (s : String.string) : bytes := String.list_byte_of_string s.

Definition bytes_eqb (s t : bytes) : bool :=
  if list_eq_dec Byte.byte_eq_dec s t then true else false.

Definition len {A : Type} (s : list A) : Z := Z.of_nat (length s).

(** [range(n)]. *)
Definition range (n : nat) : list Z := map Z.of_nat (seq 0 n).

(** [s[i]] for a tuple or byte string, [i] in range. *)
Definition getitem {A : Type} (d : A) (s : list A) (i : Z) : A :=
  nth (Z.to_nat i) s d.

(** [s[:-n]] for [n > 0]. *)
Definition drop_last {A : Type} (n : nat) (s : list A) : list A :=
  firstn (length s - n) s.

Definition startswith (s p : bytes) : bool :=
  bytes_eqb (firstn (length p) s) p.

Definition endswith (s p : bytes) : bool :=
  (length p <=? length s)%nat && bytes_eqb (skipn (length s - length p) s) p.

(** [s.replace(old, new)] for a non-empty [old]: the occurrences of [old]
    are found left to right and do not overlap.  [skip] counts the
    characters of a match still to be passed over. *)
Fixpoint replace_from (old new : bytes) (skip : nat) (s : bytes) : bytes :=
  match s with
  | [] => []
  | c :: s' =>
      match skip with
      | S k => replace_from old new k s'
      | O =>
          if startswith s old
          then new ++ replace_from old new (length old - 1) s'
          else c :: replace_from old new 0 s'
      end
  end.

Definition replace (old new s : bytes) : bytes := replace_from old new 0 s.

(** A [dict] built from a sequence of pairs: a later pair with the same
    key replaces an earlier one, and a missing key raises [KeyError]. *)
Definition dict (K V : Type) := list (K * V).

Fixpoint dict_lookup {V : Type} (d : dict byte V) (k : byte) : option V :=
  match d with
  | [] => None
  | (k', v) :: d' =>
      match dict_lookup d' k with
      | Some v' => Some v'
      | None => if Byte.eqb k' k then Some v else None
      end
  end.

Definition dict_get {V : Type} (d : dict byte V) (k : byte) : result V :=
  match dict_lookup d k with
  | Some v => Ok v
  | None => Raise KeyError
  end.

Definition enumerate {A : Type} (s : list A) : list (Z * A) :=
  combine (range (length s)) s.

(** The regular expression class [\s] on byte strings, which is also the
    set [bytes.split()] separates on: space, [\t], [\n], [\v], [\f], [\r]. *)
Definition is_space (c : byte) : bool :=
  match c with
  | x20 | x09 | x0a | x0b | x0c | x0d => true
  | _ => false
  end.

(** [re.sub(WHITESPACE_PATTERN, b(''), encoded)]. *)
Definition strip_whitespace (encoded : bytes) : bytes :=
  filter (fun c => negb (is_space c)) encoded.

(** [struct.unpack('>' + 'L' * n, raw)] for [len(raw) = 4 * n]. *)
Fixpoint unpack_uint32 (raw : bytes) : list Z :=
  match raw with
  | c0 :: c1 :: c2 :: c3 :: rest =>
      (((ord c0 * 256 + ord c1) * 256 + ord c2) * 256 + ord c3)
        :: unpack_uint32 rest
  | _ => []
  end.

(** [struct.pack('>' + 'L' * n, *uint32s)] for values in [0, 2^32). *)
Definition pack_uint32 (uint32s : list Z) : bytes :=
  flat_map (fun v => [chr (v / 16777216); chr ((v / 65536) mod 256);
                      chr ((v / 256) mod 256); chr (v mod 256)]) uint32s.

(** ** mom/codec/base85.py *)

Definition UINT128_MAX : Z := Z.shiftl 1 128 - 1.
Definition ZERO_BYTE : bytes := [x00].
Definition EXCLAMATION_CHUNK : bytes := b "!!!!!".
Definition ZERO_GROUP_CHAR : bytes := b "z".

Definition _ascii85_chr (num : Z) : byte := chr (num + 33).
Definition _ascii85_ord (char : byte) : Z := ord char - 33.

Definition ASCII85_PREFIX : bytes := b "<~".
Definition ASCII85_SUFFIX : bytes := b "~>".

Definition ASCII85_CHARS : list byte := map _ascii85_chr (range 85).

Definition ASCII85_ORDS : dict byte Z :=
  map (fun x => (x, _ascii85_ord x)) ASCII85_CHARS.

Definition RFC1924_CHARS : list byte :=
  b "0123456789ABCDEFGHIJKLMNOPQRSTUVWXYZabcdefghijklmnopqrstuvwxyz!#$%&()*+-;<=>?@^_`{|}~".

Definition RFC1924_ORDS : dict byte Z :=
  map (fun ix => (snd ix, fst ix)) (enumerate RFC1924_CHARS).

Definition POW_85 : list Z := map (fun power => 85 ^ power) (range 20).

(** [_check_compact_char_occurrence]: the loop over [enumerate(encoded)]
    with its [counter]; [Raise ValueError] at the first zero character met
    while [counter % chunk_size] is not zero. *)
Fixpoint _check_compact_loop (zero_char : bytes) (chunk_size : Z)
    (counter : Z) (encoded : bytes) : result unit :=
  match encoded with
  | [] => Ok tt
  | x :: rest =>
      if bytes_eqb [x] zero_char then
        if negb (counter mod chunk_size =? 0) then Raise ValueError
        else _check_compact_loop zero_char chunk_size 0 rest
      else _check_compact_loop zero_char chunk_size (counter + 1) rest
  end.

Definition _check_compact_char_occurrence (encoded zero_char : bytes)
    (chunk_size : Z) : result unit :=
  _check_compact_loop zero_char chunk_size 0 encoded.

Definition or_empty (s : option bytes) : bytes :=
  match s with
  | Some s => s
  | None => []
  end.

(** The five characters emitted for one 32-bit group [x]. *)
Definition b85encode_group (_base85_chars : list byte) (_pow_85 : list Z)
    (x : Z) : bytes :=
  [ getitem x00 _base85_chars (x / getitem 0 _pow_85 4);
    getitem x00 _base85_chars ((x / getitem 0 _pow_85 3) mod 85);
    getitem x00 _base85_chars ((x / getitem 0 _pow_85 2) mod 85);
    getitem x00 _base85_chars ((x / 85) mod 85);
    getitem x00 _base85_chars (x mod 85) ].

Definition b85encode (raw_bytes : bytes) (prefix suffix : option bytes)
    (_padding : bool) (_base85_chars : list byte) (_compact_zero : bool)
    (_compact_char : bytes) (_pow_85 : list Z) : bytes :=
  let prefix := or_empty prefix in
  let suffix := or_empty suffix in
  let remainder := len raw_bytes mod 4 in
  let padding_size := if remainder =? 0 then 0 else 4 - remainder in
  let raw_bytes :=
    if remainder =? 0 then raw_bytes
    else raw_bytes ++ repeat x00 (Z.to_nat padding_size) in
  let ascii_chars :=
    flat_map (b85encode_group _base85_chars _pow_85)
             (unpack_uint32 raw_bytes) in
  let ascii_chars :=
    if negb (padding_size =? 0) && negb _padding
    then drop_last (Z.to_nat padding_size) ascii_chars
    else ascii_chars in
  let encoded := ascii_chars in
  let encoded :=
    if _compact_zero then replace EXCLAMATION_CHUNK _compact_char encoded
    else encoded in
  prefix ++ encoded ++ suffix.

(** The value of one five-character chunk, as the unrolled expression of
    [b85decode] computes it; a character missing from [_base85_ords]
    raises [KeyError]. *)
Definition b85decode_chunk_value (_base85_ords : dict byte Z)
    (v w x y z : byte) : result Z :=
  ov <- dict_get _base85_ords v ;;
  ow <- dict_get _base85_ords w ;;
  ox <- dict_get _base85_ords x ;;
  oy <- dict_get _base85_ords y ;;
  oz <- dict_get _base85_ords z ;;
  Ok ((((ov * 85 + ow) * 85 + ox) * 85 + oy) * 85 + oz).

(** The body of the loop [for i in range(0, length, 5)] for one chunk. *)
Definition b85decode_chunk (_base85_ords : dict byte Z)
    (v w x y z : byte) : result Z :=
  uint32_value <-
    except_KeyError (b85decode_chunk_value _base85_ords v w x y z)
                    OverflowError ;;
  if uint32_value >? 4294967295 then Raise OverflowError
  else Ok uint32_value.

(** The loop itself; [encoded] has a length that is a multiple of 5 when
    the loop is entered, so the last case (the tuple unpacking of a short
    chunk failing) is never taken. *)
Fixpoint b85decode_loop (_base85_ords : dict byte Z) (encoded : bytes)
    : result (list Z) :=
  match encoded with
  | [] => Ok []
  | v :: w :: x :: y :: z :: rest =>
      uint32_value <- b85decode_chunk _base85_ords v w x y z ;;
      uint32s <- b85decode_loop _base85_ords rest ;;
      Ok (uint32_value :: uint32s)
  | _ => Raise ValueError
  end.

(** [b85decode] up to the removal of whitespace, prefix and suffix. *)
Definition b85decode_strip (encoded : bytes) (prefix suffix : option bytes)
    (_ignore_pattern : bool) : bytes :=
  let prefix := or_empty prefix in
  let suffix := or_empty suffix in
  let encoded :=
    if _ignore_pattern then strip_whitespace encoded else encoded in
  let encoded :=
    if negb (bytes_eqb prefix []) && startswith encoded prefix
    then skipn (length prefix) encoded else encoded in
  let encoded :=
    if negb (bytes_eqb suffix []) && endswith encoded suffix
    then drop_last (length suffix) encoded else encoded in
  encoded.

(** The step [if _uncompact_zero] of [b85decode]: the occurrence check,
    then every compaction character replaced by ['!!!!!']. *)
Definition b85decode_uncompact (encoded : bytes) (_uncompact_zero : bool)
    (_compact_char : bytes) : result bytes :=
  if _uncompact_zero then
    _ <- _check_compact_char_occurrence encoded _compact_char 5 ;;
    Ok (replace _compact_char EXCLAMATION_CHUNK encoded)
  else Ok encoded.

(** The padding of [b85decode]: [padding_size] for a text of [length]
    characters, and the padded text. *)
Definition b85decode_padding_size (length : Z) : Z :=
  let remainder := length mod 5 in
  if remainder =? 0 then 0 else 5 - remainder.

Definition b85decode_pad (encoded : bytes) (_base85_chars : list byte)
    : bytes :=
  let remainder := len encoded mod 5 in
  if remainder =? 0 then encoded
  else encoded ++ repeat (getitem x00 _base85_chars 84)
                         (Z.to_nat (5 - remainder)).

Definition b85decode (encoded : bytes) (prefix suffix : option bytes)
    (_base85_ords : dict byte Z) (_base85_chars : list byte)
    (_ignore_pattern : bool) (_uncompact_zero : bool)
    (_compact_char : bytes) : result bytes :=
  let encoded := b85decode_strip encoded prefix suffix _ignore_pattern in
  encoded <- b85decode_uncompact encoded _uncompact_zero _compact_char ;;
  let padding_size := b85decode_padding_size (len encoded) in
  let encoded := b85decode_pad encoded _base85_chars in
  uint32s <- b85decode_loop _base85_ords encoded ;;
  let raw_bytes := pack_uint32 uint32s in
  Ok (if negb (padding_size =? 0)
      then drop_last (Z.to_nat padding_size) raw_bytes
      else raw_bytes).

(** The public entry points with their default arguments. *)
Definition ascii85_encode (raw_bytes : bytes) (prefix suffix : option bytes)
    : bytes :=
  b85encode raw_bytes prefix suffix false ASCII85_CHARS true
            ZERO_GROUP_CHAR POW_85.

Definition ascii85_decode (encoded : bytes) (prefix suffix : option bytes)
    : result bytes :=
  b85decode encoded prefix suffix ASCII85_ORDS ASCII85_CHARS true true
            ZERO_GROUP_CHAR.

Definition rfc1924_b85encode (raw_bytes : bytes) (_padding : bool) : bytes :=
  b85encode raw_bytes None None _padding RFC1924_CHARS false
            ZERO_GROUP_CHAR POW_85.

Definition rfc1924_b85decode (encoded : bytes) : result bytes :=
  b85decode encoded None None RFC1924_ORDS RFC1924_CHARS true false
            ZERO_GROUP_CHAR.

(** [ipv6_b85encode]: the two range checks, then the unrolled tuple of
    twenty characters. *)
Definition ipv6_b85encode (uint128 : Z) (_base85_chars : list byte)
    (_pow_85 : list Z) : result bytes :=
  if uint128 <? 0 then Raise ValueError
  else if uint128 >? UINT128_MAX then Raise OverflowError
  else
    Ok [ getitem x00 _base85_chars (uint128 / getitem 0 _pow_85 19);
         getitem x00 _base85_chars ((uint128 / getitem 0 _pow_85 18) mod 85);
         getitem x00 _base85_chars ((uint128 / getitem 0 _pow_85 17) mod 85);
         getitem x00 _base85_chars ((uint128 / getitem 0 _pow_85 16) mod 85);
         getitem x00 _base85_chars ((uint128 / getitem 0 _pow_85 15) mod 85);
         getitem x00 _base85_chars ((uint128 / getitem 0 _pow_85 14) mod 85);
         getitem x00 _base85_chars ((uint128 / getitem 0 _pow_85 13) mod 85);
         getitem x00 _base85_chars ((uint128 / getitem 0 _pow_85 12) mod 85);
         getitem x00 _base85_chars ((uint128 / getitem 0 _pow_85 11) mod 85);
         getitem x00 _base85_chars ((uint128 / getitem 0 _pow_85 10) mod 85);
         getitem x00 _base85_chars ((uint128 / getitem 0 _pow_85 9) mod 85);
         getitem x00 _base85_chars ((uint128 / getitem 0 _pow_85 8) mod 85);
         getitem x00 _base85_chars ((uint128 / getitem 0 _pow_85 7) mod 85);
         getitem x00 _base85_chars ((uint128 / getitem 0 _pow_85 6) mod 85);
         getitem x00 _base85_chars ((uint128 / getitem 0 _pow_85 5) mod 85);
         getitem x00 _base85_chars ((uint128 / getitem 0 _pow_85 4) mod 85);
         getitem x00 _base85_chars ((uint128 / getitem 0 _pow_85 3) mod 85);
         getitem x00 _base85_chars ((uint128 / getitem 0 _pow_85 2) mod 85);
         getitem x00 _base85_chars ((uint128 / 85) mod 85);
         getitem x00 _base85_chars (uint128 mod 85) ].

(** One unrolled group of [ipv6_b85decode]: five more characters folded
    into [uint128]. *)
Definition ipv6_fold5 (_base85_ords : dict byte Z) (encoded : bytes)
    (uint128 : Z) (i : Z) : result Z :=
  o0 <- dict_get _base85_ords (getitem x00 encoded i) ;;
  o1 <- dict_get _base85_ords (getitem x00 encoded (i + 1)) ;;
  o2 <- dict_get _base85_ords (getitem x00 encoded (i + 2)) ;;
  o3 <- dict_get _base85_ords (getitem x00 encoded (i + 3)) ;;
  o4 <- dict_get _base85_ords (getitem x00 encoded (i + 4)) ;;
  Ok (((((uint128 * 85 + o0) * 85 + o1) * 85 + o2) * 85 + o3) * 85 + o4).

(** [ipv6_b85decode]: the length check on the text as given, then the fold
    unrolled in four groups of five.  The first group of the source starts
    from [_base85_ords[encoded[0]]], that is from an accumulator of 0.
    Nothing catches a [KeyError] and nothing bounds the result. *)
Definition ipv6_b85decode (encoded : bytes) (_base85_ords : dict byte Z)
    : result Z :=
  if negb (len encoded =? 20) then Raise ValueError
  else
    uint128 <- ipv6_fold5 _base85_ords encoded 0 0 ;;
    uint128 <- ipv6_fold5 _base85_ords encoded uint128 5 ;;
    uint128 <- ipv6_fold5 _base85_ords encoded uint128 10 ;;
    uint128 <- ipv6_fold5 _base85_ords encoded uint128 15 ;;
    Ok uint128.

(** ** mom/codec/_alt_base.py *)

(** Modelled from the spec: [mom.codec.base58.ASCII58_CHARSET], the Base58
    alphabet of section 4.1: digits and letters without [0], [O], [I] and
    [l], in natural ASCII order. *)
Definition ASCII58_CHARSET : list byte :=
  b "123456789ABCDEFGHJKLMNPQRSTUVWXYZabcdefghijkmnopqrstuvwxyz".

(** Modelled from the spec: [mom.codec.base58.ASCII58_ORDS], the inverse
    lookup (symbol to ordinal) of the Base58 alphabet. *)
Definition ASCII58_ORDS : dict byte Z :=
  map (fun ix => (snd ix, fst ix)) (enumerate ASCII58_CHARSET).

(** Modelled from the spec: [mom.codec.base62.ASCII62_CHARSET], the Base62
    alphabet of section 4.1: digits, uppercase, lowercase, in natural ASCII
    order. *)
Definition ASCII62_CHARSET : list byte :=
  b "0123456789ABCDEFGHIJKLMNOPQRSTUVWXYZabcdefghijklmnopqrstuvwxyz".

(** Modelled from the spec: [mom.codec.base62.ASCII62_ORDS], the inverse
    lookup (symbol to ordinal) of the Base62 alphabet. *)
Definition ASCII62_ORDS : dict byte Z :=
  map (fun ix => (snd ix, fst ix)) (enumerate ASCII62_CHARSET).

(** Modelled from the spec: [mom.codec.base85.RFC1924_BYTES], which
    [base85.py] does not define: the RFC1924 alphabet as an array of byte
    values. *)
Definition RFC1924_BYTES : list Z := map ord RFC1924_CHARS.

(** Modelled from the spec: [mom.codec.integer.bytes_to_uint], the
    big-endian unsigned integer of a byte string (section 4.2, step 1 of
    Encode); the empty string is 0. *)
Definition bytes_to_uint (raw_bytes : bytes) : Z :=
  fold_left (fun number c => number * 256 + ord c) raw_bytes 0.

(** The number of loop iterations that exhaust a positive [number] when
    each one divides it by a base of at least 2. *)
Definition iterations (number : Z) : nat := S (Z.to_nat (Z.log2 number)).

(** The big-endian base-256 digits of [number], most significant first,
    without leading zeros. *)
Fixpoint uint_to_bytes_loop (fuel : nat) (number : Z) (raw_bytes : bytes)
    : bytes :=
  match fuel with
  | O => raw_bytes
  | S fuel' =>
      if number >? 0
      then uint_to_bytes_loop fuel' (number / 256)
                              (chr (number mod 256) :: raw_bytes)
      else raw_bytes
  end.

(** Modelled from the spec: [mom.codec.uint_to_bytes], the big-endian byte
    string of an unsigned integer (section 4.2, step 3 of Decode), without
    leading zero bytes; 0 is the single zero byte. *)
Definition uint_to_bytes (number : Z) : bytes :=
  if number =? 0 then [x00]
  else uint_to_bytes_loop (iterations number) number [].

(** Modelled from the spec: [mom.functional.leading], the number of
    leading elements of [iterable] that satisfy [predicate]. *)
Fixpoint leading {A : Type} (predicate : A -> bool) (iterable : list A)
    : nat :=
  match iterable with
  | [] => O
  | w :: rest => if predicate w then S (leading predicate rest) else O
  end.

(** The loop [while number > 0] of [b58encode_naive] and
    [b62encode_naive], whose bodies differ in the base only.  [fuel] bounds
    the number of iterations. *)
Fixpoint encode_naive_loop (base : Z) (_charset : list byte) (fuel : nat)
    (number : Z) (encoded : bytes) : bytes :=
  match fuel with
  | O => encoded
  | S fuel' =>
      if number >? 0
      then encode_naive_loop base _charset fuel' (number / base)
             (getitem x00 _charset (number mod base) :: encoded)
      else encoded
  end.

Definition encode_naive (base : Z) (raw_bytes : bytes)
    (_charset : list byte) (_padding : bool) (_zero_byte : bytes) : bytes :=
  let number := bytes_to_uint raw_bytes in
  let encoded :=
    encode_naive_loop base _charset (iterations number) number [] in
  if _padding then
    let zero_leading :=
      leading (fun w => Byte.eqb w (getitem x00 _zero_byte 0)) raw_bytes in
    repeat (getitem x00 _charset 0) zero_leading ++ encoded
  else encoded.

Definition b58encode_naive (raw_bytes : bytes) (_charset : list byte)
    (_padding : bool) (_zero_byte : bytes) : bytes :=
  encode_naive 58 raw_bytes _charset _padding _zero_byte.

Definition b62encode_naive (raw_bytes : bytes) (_charset : list byte)
    (_padding : bool) (_zero_byte : bytes) : bytes :=
  encode_naive 62 raw_bytes _charset _padding _zero_byte.

(** The loop [for i, x in enumerate(reversed(encoded))] of the two naive
    decoders: [number += _lookup[x] * (base ** i)]. *)
Fixpoint decode_naive_loop (base : Z) (_lookup : dict byte Z)
    (items : list (Z * byte)) (number : Z) : result Z :=
  match items with
  | [] => Ok number
  | (i, x) :: rest =>
      o <- dict_get _lookup x ;;
      decode_naive_loop base _lookup rest (number + o * base ^ i)
  end.

Definition decode_naive (base : Z) (encoded : bytes) (_charset : list byte)
    (_lookup : dict byte Z) : result bytes :=
  let encoded := strip_whitespace encoded in
  number <- decode_naive_loop base _lookup (enumerate (rev encoded)) 0 ;;
  let raw_bytes := if number =? 0 then [] else uint_to_bytes number in
  let zero_char := getitem x00 _charset 0 in
  let zero_leading := leading (fun w => Byte.eqb w zero_char) encoded in
  Ok (if (0 <? zero_leading)%nat
      then repeat x00 zero_leading ++ raw_bytes
      else raw_bytes).

Definition b62decode_naive (encoded : bytes) (_charset : list byte)
    (_lookup : dict byte Z) : result bytes :=
  decode_naive 62 encoded _charset _lookup.

Definition b58decode_naive (encoded : bytes) (_charset : list byte)
    (_lookup : dict byte Z) : result bytes :=
  decode_naive 58 encoded _charset _lookup.

(** The loop [for char in encoded] of [ipv6_b85decode_naive]. *)
Fixpoint ipv6_naive_loop (_base85_ords : dict byte Z) (encoded : bytes)
    (uint128 : Z) : result Z :=
  match encoded with
  | [] => Ok uint128
  | char :: rest =>
      o <- dict_get _base85_ords char ;;
      ipv6_naive_loop _base85_ords rest (uint128 * 85 + o)
  end.

Definition ipv6_b85decode_naive (encoded : bytes)
    (_base85_ords : dict byte Z) : result Z :=
  let encoded := strip_whitespace encoded in
  if negb (len encoded =? 20) then Raise ValueError
  else
    uint128 <- except_KeyError (ipv6_naive_loop _base85_ords encoded 0)
                               OverflowError ;;
    if uint128 >? UINT128_MAX then Raise OverflowError
    else Ok uint128.

(** [encoded[i] = v] on an [array('B')]; [i] is in range. *)
Fixpoint setitem {A : Type} (s : list A) (i : nat) (v : A) : list A :=
  match s, i with
  | [], _ => []
  | _ :: s', O => v :: s'
  | c :: s', S i' => c :: setitem s' i' v
  end.

(** The loop [for i in reversed(encoded)] of [ipv6_b85encode_naive]:
    [positions] are the indices the reversed iterator still has to read,
    and each [i] is read from the array that the loop body writes to. *)
Fixpoint ipv6_encode_naive_loop (_base85_bytes : list Z)
    (positions : list nat) (uint128 : Z) (encoded : list Z) : list Z :=
  match positions with
  | [] => encoded
  | p :: rest =>
      let i := nth p encoded 0 in
      let remainder := uint128 mod 85 in
      let uint128 := uint128 / 85 in
      ipv6_encode_naive_loop _base85_bytes rest uint128
        (setitem encoded (Z.to_nat i) (getitem 0 _base85_bytes remainder))
  end.

Definition ipv6_b85encode_naive (uint128 : Z) (_base85_bytes : list Z)
    : result bytes :=
  if uint128 <? 0 then Raise ValueError
  else if uint128 >? UINT128_MAX then Raise OverflowError
  else
    let encoded := range 20 in
    Ok (map chr (ipv6_encode_naive_loop _base85_bytes
                   (rev (seq 0 (length encoded))) uint128 encoded)).

(** ** mom/security/random.py *)

(** The functions of this module draw their bytes from [rand_func], which
    defaults to [os.urandom].  A generator is modelled by its state [rng]:
    [rand_func count st] is the byte string of one call and the state after
    it, so that two calls need not return the same bytes. *)

(** Modelled from the spec: [mom.codec.bytes_to_long], the big-endian
    unsigned integer of a byte string (section 2, BigIntConversion). *)
Definition bytes_to_long (raw_bytes : bytes) : Z := bytes_to_uint raw_bytes.

(** [ord(s)] of a byte string: defined for strings of length 1 only. *)
Definition ord_of_bytes (s : bytes) : result Z :=
  match s with
  | [c] => Ok (ord c)
  | _ => Raise TypeError
  end.

Definition generate_random_bits {rng : Type} (n_bits : Z)
    (rand_func : Z -> rng -> bytes * rng) (st : rng) : result (bytes * rng) :=
  if n_bits <=? 0 then Raise ValueError
  else
    let q := n_bits / 8 in
    let r := n_bits mod 8 in
    let (random_bytes, st) := rand_func q st in
    if negb (r =? 0) then
      let (one, st) := rand_func 1 st in
      o <- ord_of_bytes one ;;
      let offset := Z.shiftr o (8 - r) in
      Ok (chr offset :: random_bytes, st)
    else Ok (random_bytes, st).

Definition generate_random_ulong_atmost {rng : Type} (n_bits : Z)
    (rand_func : Z -> rng -> bytes * rng) (st : rng) : result (Z * rng) :=
  if n_bits <=? 0 then Raise ValueError
  else
    let q := n_bits / 8 in
    let r := n_bits mod 8 in
    let q := if negb (r =? 0) then q + 1 else q in
    let (random_bytes, st) := rand_func q st in
    let mask := Z.shiftl 1 n_bits - 1 in
    Ok (Z.land mask (bytes_to_long random_bytes), st).

Definition generate_random_ulong_exactly {rng : Type} (n_bits : Z)
    (rand_func : Z -> rng -> bytes * rng) (st : rng) : result (Z * rng) :=
  r <- generate_random_bits n_bits rand_func st ;;
  let value := bytes_to_long (fst r) in
  let value := Z.lor value (Z.shiftl 1 (n_bits - 1)) in
  Ok (value, snd r).

(** The loop [while value > r] of [generate_random_ulong_between]; [None]
    when [fuel] draws were not enough to leave it. *)
Fixpoint generate_random_ulong_between_loop {rng : Type} (fuel : nat)
    (bits r : Z) (rand_func : Z -> rng -> bytes * rng) (value : Z) (st : rng)
    : option (result (Z * rng)) :=
  if value >? r then
    match fuel with
    | O => None
    | S fuel' =>
        match generate_random_ulong_atmost bits rand_func st with
        | Ok (value, st) =>
            generate_random_ulong_between_loop fuel' bits r rand_func value st
        | Raise e => Some (Raise e)
        end
    end
  else Some (Ok (value, st)).

(** [generate_random_ulong_between]; [long_bit_length], of [mom.builtins],
    is not under [src/] and is taken as a parameter. *)
Definition generate_random_ulong_between {rng : Type} (fuel : nat)
    (long_bit_length : Z -> Z) (low high : Z)
    (rand_func : Z -> rng -> bytes * rng) (st : rng)
    : option (result (Z * rng)) :=
  if low >=? high then Some (Raise ValueError)
  else
    let r := high - low - 1 in
    let bits := long_bit_length r in
    match generate_random_ulong_atmost bits rand_func st with
    | Raise e => Some (Raise e)
    | Ok (value, st) =>
        match generate_random_ulong_between_loop fuel bits r rand_func
                value st with
        | Some (Ok (value, st)) => Some (Ok (low + value, st))
        | other => other
        end
    end.

(** ** The type guards

    A function of the modules starts by checking the types of its
    arguments and raises [TypeError] for one of a wrong type.  The models
    above take typed arguments; the definitions below are the functions as
    they are called, with arguments of any type: the guards, then the
    typed model. *)

(** A Python object as the guards see it: a byte string, an integer, or an
    object of any other type ([None], a unicode string, a list, ...), of
    which the code looks at the truth value only. *)
Inductive object : Type :=
| Bytes (s : bytes)
| Int (n : Z)
| Other (truth : bool).

(** Modelled from the spec: [mom.builtins.is_bytes], whether the object is
    a byte string (section 7, TypeInvalid: the input is not a byte
    sequence where one is required). *)
Definition is_bytes (obj : object) : bool :=
  match obj with
  | Bytes _ => true
  | _ => false
  end.

(** Modelled from the spec: [mom.builtins.is_integer], whether the object
    is an integer (section 7, TypeInvalid: not a properly typed integer
    where one is required). *)
Definition is_integer (obj : object) : bool :=
  match obj with
  | Int _ => true
  | _ => false
  end.

(** [bool(obj)]: an empty byte string and the integer 0 are false. *)
Definition truth_value (obj : object) : bool :=
  match obj with
  | Bytes s => negb (bytes_eqb s [])
  | Int n => negb (n =? 0)
  | Other truth => truth
  end.

(** The byte string, or the integer, that an object of that type is. *)
Definition bytes_of (obj : object) : bytes :=
  match obj with
  | Bytes s => s
  | _ => []
  end.

Definition int_of (obj : object) : Z :=
  match obj with
  | Int n => n
  | _ => 0
  end.

(** [obj or b('')]. *)
Definition or_empty_bytes (obj : object) : object :=
  if truth_value obj then obj else Bytes [].

(** [b85decode] from its first line: the defaults of [prefix] and
    [suffix], the three guards, then the rest of the function, which is
    [b85decode] above. *)
Definition b85decode_untyped (encoded prefix suffix : object)
    (_base85_ords : dict byte Z) (_base85_chars : list byte)
    (_ignore_pattern _uncompact_zero : bool) (_compact_char : object)
    : result bytes :=
  let prefix := or_empty_bytes prefix in
  let suffix := or_empty_bytes suffix in
  if negb (is_bytes prefix && is_bytes suffix) then Raise TypeError
  else if negb (is_bytes _compact_char) then Raise TypeError
  else if negb (is_bytes encoded) then Raise TypeError
  else b85decode (bytes_of encoded) (Some (bytes_of prefix))
                 (Some (bytes_of suffix)) _base85_ords _base85_chars
                 _ignore_pattern _uncompact_zero (bytes_of _compact_char).

(** [b62decode_naive] and [b58decode_naive] from their first line. *)
Definition b62decode_naive_untyped (encoded : object) (_charset : list byte)
    (_lookup : dict byte Z) : result bytes :=
  if negb (is_bytes encoded) then Raise TypeError
  else b62decode_naive (bytes_of encoded) _charset _lookup.

Definition b58decode_naive_untyped (encoded : object) (_charset : list byte)
    (_lookup : dict byte Z) : result bytes :=
  if negb (is_bytes encoded) then Raise TypeError
  else b58decode_naive (bytes_of encoded) _charset _lookup.

(** [generate_random_ulong_between] from its first line.  The guard of
    [generate_random_ulong_atmost], which it calls, is on the integer that
    [long_bit_length] returns. *)
Definition generate_random_ulong_between_untyped {rng : Type} (fuel : nat)
    (long_bit_length : Z -> Z) (low high : object)
    (rand_func : Z -> rng -> bytes * rng) (st : rng)
    : option (result (Z * rng)) :=
  if negb (is_integer low && is_integer high) then Some (Raise TypeError)
  else generate_random_ulong_between fuel long_bit_length (int_of low)
         (int_of high) rand_func st.

(** * Definitions used in the statements *)

(** A table of ordinals inverts a character set on its first [n]
    positions. *)
Definition inverts (ords : dict byte Z) (chars : list byte) (n : nat)
    : bool :=
  forallb (fun i => match dict_lookup ords (getitem x00 chars i) with
                    | Some j => j =? i
                    | None => false
                    end) (range n).

(** The big-endian unsigned 32-bit value of four bytes, as
    [unpack_uint32] reads it. *)
Definition uint32_of (c0 c1 c2 c3 : byte) : Z :=
  ((ord c0 * 256 + ord c1) * 256 + ord c2) * 256 + ord c3.

(** The text [ipv6_b85encode] returns for a value in range. *)
Definition ipv6_symbols (chars : list byte) (v : Z) : bytes :=
  map (getitem x00 chars)
      [ v / 85 ^ 19; (v / 85 ^ 18) mod 85; (v / 85 ^ 17) mod 85;
        (v / 85 ^ 16) mod 85; (v / 85 ^ 15) mod 85; (v / 85 ^ 14) mod 85;
        (v / 85 ^ 13) mod 85; (v / 85 ^ 12) mod 85; (v / 85 ^ 11) mod 85;
        (v / 85 ^ 10) mod 85; (v / 85 ^ 9) mod 85; (v / 85 ^ 8) mod 85;
        (v / 85 ^ 7) mod 85; (v / 85 ^ 6) mod 85; (v / 85 ^ 5) mod 85;
        (v / 85 ^ 4) mod 85; (v / 85 ^ 3) mod 85; (v / 85 ^ 2) mod 85;
        (v / 85) mod 85; v mod 85 ].

(** The number of symbols other than [zero_char] among the first [i]
    symbols of [text]. *)
Definition symbols_before (zero_char : byte) (text : bytes) (i : nat) : Z :=
  len (filter (fun c => negb (Byte.eqb c zero_char)) (firstn i text)).

(** No byte of [s] is whitespace. *)
Definition no_whitespace (s : bytes) : Prop :=
  forallb (fun c => negb (is_space c)) s = true.

(** A digit in base [base]. *)
Definition digit (base : Z) (d : Z) : Prop := 0 <= d < base.

(** The value of a list of digits, most significant first. *)
Definition horner (base : Z) (ds : list Z) : Z :=
  fold_left (fun acc d => acc * base + d) ds 0.

(** The digits a loop [while number > 0] produces by [number % base] and
    [number //= base], each new one in front of the earlier ones. *)
Fixpoint digits_loop (base : Z) (fuel : nat) (number : Z) (acc : list Z)
    : list Z :=
  match fuel with
  | O => acc
  | S fuel' =>
      if number >? 0
      then digits_loop base fuel' (number / base) (number mod base :: acc)
      else acc
  end.

(** No leading zero digit. *)
Definition no_leading_zero (ds : list Z) : Prop :=
  match ds with
  | [] => True
  | d :: _ => d <> 0
  end.

(** The sum of the loop of the decoders: [ds] holds the digits, least
    significant first, and [k] is the index of the first one. *)
Fixpoint weighted (base : Z) (ds : list Z) (k : Z) : Z :=
  match ds with
  | [] => 0
  | d :: ds' => d * base ^ k + weighted base ds' (k + 1)
  end.

(** The bytes of hex [005cc87f4a3fdfe3a2346b6953267ca867282630d3f9b78e64]. *)
Definition raw_data : bytes :=
  [x00; x5c; xc8; x7f; x4a; x3f; xdf; xe3; xa2; x34; x6b; x69; x53; x26;
   x7c; xa8; x67; x28; x26; x30; xd3; xf9; xb7; x8e; x64].

(** The index in the character set of each of the 34 symbols of the
    Base62 text of [raw_data]: 0 for its leading zero byte, then the
    base-62 digits of its number, most significant first. *)
Definition raw_data_digits : list Z :=
  [0; 1; 0; 4; 1; 32; 9; 58; 40; 16; 18; 40; 61; 57; 58; 20; 48; 28; 24; 0;
   47; 36; 21; 8; 11; 16; 59; 4; 52; 51; 6; 4; 26; 8].

(** The characters [b85encode] produces before compaction and wrapping,
    for [_padding=False]. *)
Definition b85encode_chars (chars : list byte) (raw_bytes : bytes) : bytes :=
  let remainder := len raw_bytes mod 4 in
  let padding_size := if remainder =? 0 then 0 else 4 - remainder in
  let raw_bytes :=
    if remainder =? 0 then raw_bytes
    else raw_bytes ++ repeat x00 (Z.to_nat padding_size) in
  let ascii_chars :=
    flat_map (b85encode_group chars POW_85) (unpack_uint32 raw_bytes) in
  if negb (padding_size =? 0)
  then drop_last (Z.to_nat padding_size) ascii_chars
  else ascii_chars.

(** What [b85decode] makes of a text once whitespace, prefix, suffix and
    compaction are dealt with. *)
Definition b85decode_text (ords : dict byte Z) (chars : list byte)
    (text : bytes) : result bytes :=
  uint32s <- b85decode_loop ords (b85decode_pad text chars) ;;
  Ok (if negb (b85decode_padding_size (len text) =? 0)
      then drop_last (Z.to_nat (b85decode_padding_size (len text)))
                     (pack_uint32 uint32s)
      else pack_uint32 uint32s).

(** The input of [b85encode] with its zero bytes of padding. *)
Definition zero_padded (raw_bytes : bytes) : bytes :=
  if len raw_bytes mod 4 =? 0 then raw_bytes
  else raw_bytes ++ repeat x00 (Z.to_nat (4 - len raw_bytes mod 4)).

(** The ordinal a table gives a symbol; 0 stands in for a missing one. *)
Definition ordinal (ords : dict byte Z) (c : byte) : Z :=
  match dict_lookup ords c with
  | Some d => d
  | None => 0
  end.

(** The twenty base-85 digits of [v], most significant first. *)
Definition ipv6_digits (v : Z) : list Z :=
  [ v / 85 ^ 19; (v / 85 ^ 18) mod 85; (v / 85 ^ 17) mod 85;
    (v / 85 ^ 16) mod 85; (v / 85 ^ 15) mod 85; (v / 85 ^ 14) mod 85;
    (v / 85 ^ 13) mod 85; (v / 85 ^ 12) mod 85; (v / 85 ^ 11) mod 85;
    (v / 85 ^ 10) mod 85; (v / 85 ^ 9) mod 85; (v / 85 ^ 8) mod 85;
    (v / 85 ^ 7) mod 85; (v / 85 ^ 6) mod 85; (v / 85 ^ 5) mod 85;
    (v / 85 ^ 4) mod 85; (v / 85 ^ 3) mod 85; (v / 85 ^ 2) mod 85;
    (v / 85) mod 85; v mod 85 ].

(** A table gives ordinals below [n] only, each to the symbol that stands
    at that index of the character set. *)
Definition indexes (ords : dict byte Z) (chars : list byte) (n : Z) : Prop :=
  forall c d, dict_lookup ords c = Some d ->
              0 <= d < n /\ getitem x00 chars d = c.

(** A generator that returns as many bytes as it is asked for. *)
Definition returns_count {rng : Type} (rand_func : Z -> rng -> bytes * rng)
    : Prop :=
  forall count st, 0 <= count -> len (fst (rand_func count st)) = count.

(** A generator for examples: it returns [count] times the byte [c]. *)
Definition constant_bytes (c : byte) (count : Z) (st : unit)
    : bytes * unit :=
  (repeat c (Z.to_nat count), st).

(** A generator for examples whose state is the bytes still to be served:
    a call returns [count] times the first of them and drops it. *)
Definition scripted_bytes (count : Z) (st : bytes) : bytes * bytes :=
  (repeat (hd x00 st) (Z.to_nat count), tl st).

(** A character set of [n] distinct symbols, none of them whitespace, and
    the table that maps each of them, and nothing else, to its index. *)
Definition alphabet (ords : dict byte Z) (chars : list byte) (n : Z) : Prop :=
  len chars = n /\ NoDup chars /\ no_whitespace chars /\
  forall c d, dict_lookup ords c = Some d <->
              0 <= d < n /\ getitem x00 chars d = c.

(** * Properties *)

(** ** Bytes and lookup tables *)

Lemma ord_range (c : byte) : 0 <= ord c < 256.
Proof.
  unfold ord. pose proof (Byte.to_N_bounded c). lia.
Qed.

Lemma chr_ord (c : byte) : chr (ord c) = c.
Proof.
  unfold chr, ord. rewrite N2Z.id, Byte.of_to_N. reflexivity.
Qed.

Lemma ord_chr (n : Z) : 0 <= n < 256 -> ord (chr n) = n.
Proof.
  intros Hn. unfold chr, ord.
  destruct (Byte.of_N (Z.to_N n)) as [c|] eqn:E.
  - apply Byte.to_of_N in E. rewrite E. lia.
  - apply Byte.of_N_None_iff in E. lia.
Qed.

Lemma in_range (n : nat) (i : Z) : In i (range n) <-> 0 <= i < Z.of_nat n.
Proof.
  unfold range. rewrite in_map_iff. split.
  - intros [k [<- Hk]]. apply in_seq in Hk. lia.
  - intros Hi. exists (Z.to_nat i). split; [lia|]. apply in_seq. lia.
Qed.

Lemma bytes_eqb_eq (s t : bytes) : bytes_eqb s t = true <-> s = t.
Proof.
  unfold bytes_eqb. destruct (list_eq_dec Byte.byte_eq_dec s t).
  - tauto.
  - split; [discriminate | contradiction].
Qed.

Lemma bytes_eqb_refl (s : bytes) : bytes_eqb s s = true.
Proof. apply bytes_eqb_eq. reflexivity. Qed.

Lemma inverts_get (ords : dict byte Z) (chars : list byte) (n : nat) (i : Z) :
  inverts ords chars n = true -> 0 <= i < Z.of_nat n ->
  dict_get ords (getitem x00 chars i) = Ok i.
Proof.
  intros Hinv Hi. unfold inverts in Hinv.
  rewrite forallb_forall in Hinv.
  specialize (Hinv i (proj2 (in_range n i) Hi)).
  unfold dict_get.
  destruct (dict_lookup ords (getitem x00 chars i)) as [j|]; [|discriminate].
  apply Z.eqb_eq in Hinv. subst j. reflexivity.
Qed.

Lemma ASCII85_ORDS_inverts : inverts ASCII85_ORDS ASCII85_CHARS 85 = true.
Proof. vm_compute. reflexivity. Qed.

Lemma RFC1924_ORDS_inverts : inverts RFC1924_ORDS RFC1924_CHARS 85 = true.
Proof. vm_compute. reflexivity. Qed.

Lemma ASCII58_ORDS_inverts : inverts ASCII58_ORDS ASCII58_CHARSET 58 = true.
Proof. vm_compute. reflexivity. Qed.

Lemma ASCII62_ORDS_inverts : inverts ASCII62_ORDS ASCII62_CHARSET 62 = true.
Proof. vm_compute. reflexivity. Qed.

Lemma getitem_In {A : Type} (d : A) (s : list A) (i : Z) :
  0 <= i < len s -> In (getitem d s i) s.
Proof.
  intros Hi. unfold getitem. apply nth_In. unfold len in Hi. lia.
Qed.

Lemma POW_85_eq :
  POW_85 = [1; 85; 7225; 614125; 52200625; 4437053125; 377149515625;
            32057708828125; 2724905250390625; 231616946283203125;
            19687440434072265625; 1673432436896142578125;
            142241757136172119140625; 12090549356574630126953125;
            1027696695308843560791015625; 87354219101251702667236328125;
            7425108623606394726715087890625;
            631134233006543551770782470703125;
            53646409805556201900516510009765625;
            4559944833472277161543903350830078125].
Proof. reflexivity. Qed.

Lemma UINT128_MAX_eq : UINT128_MAX = 340282366920938463463374607431768211455.
Proof. reflexivity. Qed.

Ltac zlia := Z.to_euclidean_division_equations; lia.

Ltac pow85 :=
  repeat match goal with
         | |- context [getitem 0 POW_85 ?i] =>
             change (getitem 0 POW_85 i) with (85 ^ i)
         end.

(** ** The fixed-width 128-bit codec *)

Section Ipv6Fold.

Variables (ords : dict byte Z) (chars : list byte).
Hypothesis Hinv : inverts ords chars 85 = true.


End Ipv6Fold.

Lemma div_pow85_step (v i j : Z) :
  0 <= i -> j = i + 1 ->
  v / 85 ^ i = 85 * (v / 85 ^ j) + (v / 85 ^ i) mod 85.
Proof.
  intros Hi ->. rewrite Z.pow_add_r, Z.pow_1_r by lia.
  rewrite <- Z.div_div by lia.
  apply Z.div_mod. lia.
Qed.

Lemma mod85_range (q : Z) : 0 <= q mod 85 < 85.
Proof. apply Z.mod_pos_bound. lia. Qed.

Lemma uint128_top_digit (v : Z) :
  0 <= v <= UINT128_MAX -> 0 <= v / 85 ^ 19 < 85.
Proof.
  rewrite UINT128_MAX_eq. intros Hv.
  split; [apply Z.div_pos; lia | apply Z.div_lt_upper_bound; lia].
Qed.

Lemma ipv6_b85encode_in_range (chars : list byte) (v : Z) :
  0 <= v <= UINT128_MAX ->
  ipv6_b85encode v chars POW_85 = Ok (ipv6_symbols chars v).
Proof.
  intros Hv. unfold ipv6_b85encode.
  destruct (Z.ltb_spec v 0) as [?|_]; [lia|].
  destruct (Z.gtb_spec v UINT128_MAX) as [?|_]; [lia|].
  pow85. reflexivity.
Qed.






(** [ipv6_b85decode] measures the text as given: any text that is not
    exactly 20 bytes long, whitespace included, raises [ValueError]. *)
Lemma ipv6_b85decode_length (encoded : bytes) (ords : dict byte Z) :
  length encoded <> 20%nat -> ipv6_b85decode encoded ords = Raise ValueError.
Proof.
  intros Hlen. unfold ipv6_b85decode, len.
  destruct (Z.eqb_spec (Z.of_nat (length encoded)) 20); [lia | reflexivity].
Qed.

(** The naive decoder fails with [OverflowError] or [ValueError] only, and
    never returns a value above [UINT128_MAX]. *)
Lemma ipv6_naive_loop_raise (ords : dict byte Z) (encoded : bytes)
    (acc : Z) (e : exn) :
  ipv6_naive_loop ords encoded acc = Raise e -> e = KeyError.
Proof.
  revert acc. induction encoded as [|c rest IH]; intros acc; cbn.
  - discriminate.
  - unfold dict_get. destruct (dict_lookup ords c); cbn.
    + apply IH.
    + congruence.
Qed.

Lemma ipv6_b85decode_naive_bounded (encoded : bytes) (ords : dict byte Z) :
  match ipv6_b85decode_naive encoded ords with
  | Ok uint128 => uint128 <= UINT128_MAX
  | Raise e => e = ValueError \/ e = OverflowError
  end.
Proof.
  unfold ipv6_b85decode_naive.
  destruct (negb (len (strip_whitespace encoded) =? 20)); [now left|].
  destruct (ipv6_naive_loop ords (strip_whitespace encoded) 0)
    as [uint128 | e] eqn:E; unfold except_KeyError, bind.
  - destruct (Z.gtb_spec uint128 UINT128_MAX); [now right | lia].
  - apply ipv6_naive_loop_raise in E. subst e. now right.
Qed.

(** The naive encoder and the unrolled one agree at the ends of the range
    and reject the same inputs. *)
Lemma ipv6_b85encode_naive_examples :
  ipv6_b85encode_naive 0 RFC1924_BYTES = ipv6_b85encode 0 RFC1924_CHARS POW_85 /\
  ipv6_b85encode_naive UINT128_MAX RFC1924_BYTES
    = ipv6_b85encode UINT128_MAX RFC1924_CHARS POW_85 /\
  ipv6_b85encode_naive (-1) RFC1924_BYTES = Raise ValueError /\
  ipv6_b85encode_naive (UINT128_MAX + 1) RFC1924_BYTES = Raise OverflowError.
Proof.
  repeat split; vm_compute; reflexivity.
Qed.

(** C3 -- [ipv6_b85decode] at twenty ['~'] returns 85^20 - 1, which exceeds
    2^128 - 1, and at a text with a comma (not an RFC1924 symbol) raises
    [KeyError]; [ipv6_b85decode_naive] raises [OverflowError] at both. *)
Theorem ipv6_b85decode_unchecked :
  ipv6_b85decode (b "~~~~~~~~~~~~~~~~~~~~") RFC1924_ORDS
    = Ok 387595310845143558731231784820556640624 /\
  UINT128_MAX < 387595310845143558731231784820556640624 /\
  ipv6_b85decode (b "0000000000000000000,") RFC1924_ORDS = Raise KeyError /\
  ipv6_b85decode_naive (b "~~~~~~~~~~~~~~~~~~~~") RFC1924_ORDS
    = Raise OverflowError /\
  ipv6_b85decode_naive (b "0000000000000000000,") RFC1924_ORDS
    = Raise OverflowError.
Proof.
  repeat split; vm_compute; reflexivity.
Qed.

(** C4 -- [ipv6_b85decode] at twenty symbols followed by a newline (21
    bytes, 20 after whitespace removal) raises [ValueError], where
    [ipv6_b85decode_naive] returns the value; both raise [ValueError] at 19
    and at 21 symbols. *)
Theorem ipv6_b85decode_keeps_whitespace :
  ipv6_b85decode (b "00000000000000000001" ++ [x0a]) RFC1924_ORDS
    = Raise ValueError /\
  ipv6_b85decode_naive (b "00000000000000000001" ++ [x0a]) RFC1924_ORDS
    = Ok 1 /\
  ipv6_b85decode (b "0000000000000000000") RFC1924_ORDS = Raise ValueError /\
  ipv6_b85decode (b "000000000000000000000") RFC1924_ORDS = Raise ValueError /\
  ipv6_b85decode_naive (b "0000000000000000000") RFC1924_ORDS
    = Raise ValueError /\
  ipv6_b85decode_naive (b "000000000000000000000") RFC1924_ORDS
    = Raise ValueError.
Proof.
  repeat split; vm_compute; reflexivity.
Qed.

(** ** The Base85 block decoder *)

Lemma chunks_ind (P : bytes -> Prop) :
  P [] ->
  (forall v w x y z rest, P rest -> P (v :: w :: x :: y :: z :: rest)) ->
  forall s, len s mod 5 = 0 -> P s.
Proof.
  intros Hnil Hcons s.
  remember (length s) as n eqn:Hn. revert s Hn.
  induction n as [n IH] using lt_wf_ind. intros s Hn Hmod.
  destruct s as [|v [|w [|x [|y [|z rest]]]]];
    try (unfold len in Hmod; cbn [length] in Hmod; zlia).
  - exact Hnil.
  - apply Hcons. apply (IH (length rest)).
    + cbn [length] in Hn. lia.
    + reflexivity.
    + unfold len in *. cbn [length] in Hmod. zlia.
Qed.

Lemma len_app {A : Type} (s t : list A) : len (s ++ t) = len s + len t.
Proof. unfold len. rewrite length_app. lia. Qed.

Lemma len_repeat {A : Type} (c : A) (n : nat) : len (repeat c n) = Z.of_nat n.
Proof. unfold len. now rewrite repeat_length. Qed.

Lemma len_nonneg {A : Type} (s : list A) : 0 <= len s.
Proof. unfold len. lia. Qed.

Lemma b85decode_pad_len (encoded : bytes) (chars : list byte) :
  len (b85decode_pad encoded chars) =
  len encoded + b85decode_padding_size (len encoded).
Proof.
  unfold b85decode_pad, b85decode_padding_size.
  destruct (Z.eqb_spec (len encoded mod 5) 0); [lia|].
  rewrite len_app, len_repeat. zlia.
Qed.

Lemma b85decode_pad_mod5 (encoded : bytes) (chars : list byte) :
  len (b85decode_pad encoded chars) mod 5 = 0.
Proof.
  rewrite b85decode_pad_len. unfold b85decode_padding_size.
  destruct (Z.eqb_spec (len encoded mod 5) 0); zlia.
Qed.

Lemma dict_get_raise {V : Type} (d : dict byte V) (k : byte) (e : exn) :
  dict_get d k = Raise e -> e = KeyError /\ dict_lookup d k = None.
Proof.
  unfold dict_get. destruct (dict_lookup d k); [discriminate|].
  intros [= <-]. split; reflexivity.
Qed.

Lemma dict_get_None {V : Type} (d : dict byte V) (k : byte) :
  dict_lookup d k = None -> dict_get d k = Raise KeyError.
Proof. unfold dict_get. now intros ->. Qed.

(** Whatever goes wrong in a chunk, [b85decode] raises [OverflowError]. *)
Lemma b85decode_chunk_raise (ords : dict byte Z) (v w x y z : byte)
    (e : exn) :
  b85decode_chunk ords v w x y z = Raise e -> e = OverflowError.
Proof.
  unfold b85decode_chunk, b85decode_chunk_value, dict_get.
  destruct (dict_lookup ords v); cbn; [|congruence].
  destruct (dict_lookup ords w); cbn; [|congruence].
  destruct (dict_lookup ords x); cbn; [|congruence].
  destruct (dict_lookup ords y); cbn; [|congruence].
  destruct (dict_lookup ords z); cbn; [|congruence].
  match goal with |- context [?a >? ?c] => destruct (a >? c) end;
    congruence.
Qed.

Lemma b85decode_chunk_invalid (ords : dict byte Z) (v w x y z c : byte) :
  In c [v; w; x; y; z] -> dict_lookup ords c = None ->
  b85decode_chunk ords v w x y z = Raise OverflowError.
Proof.
  intros Hin Hc.
  destruct (b85decode_chunk ords v w x y z) as [u|e] eqn:E.
  - exfalso. revert E.
    unfold b85decode_chunk, b85decode_chunk_value, dict_get.
    cbn [In] in Hin.
    destruct Hin as [<-|[<-|[<-|[<-|[<-|[]]]]]]; rewrite Hc;
      repeat match goal with
             | |- context [dict_lookup ords ?k] =>
                 destruct (dict_lookup ords k)
             end; cbn; discriminate.
  - apply b85decode_chunk_raise in E. now subst e.
Qed.

Lemma b85decode_loop_raise (ords : dict byte Z) (s : bytes) (e : exn) :
  len s mod 5 = 0 -> b85decode_loop ords s = Raise e -> e = OverflowError.
Proof.
  intros Hs. revert e. pattern s. apply chunks_ind; [| |exact Hs].
  - cbn. discriminate.
  - intros v w x y z rest IH e. cbn [b85decode_loop].
    destruct (b85decode_chunk ords v w x y z) as [u|e'] eqn:E; cbn.
    + destruct (b85decode_loop ords rest) as [us|e'']; cbn;
        [discriminate|].
      intros [= <-]. now apply IH.
    + intros [= <-]. now apply b85decode_chunk_raise in E.
Qed.

Lemma b85decode_loop_invalid (ords : dict byte Z) (s : bytes) (c : byte) :
  len s mod 5 = 0 -> In c s -> dict_lookup ords c = None ->
  b85decode_loop ords s = Raise OverflowError.
Proof.
  intros Hs Hin Hc. revert Hin. pattern s. apply chunks_ind; [| |exact Hs].
  - intros [].
  - intros v w x y z rest IH Hin. cbn [b85decode_loop].
    destruct (b85decode_chunk ords v w x y z) as [u|e] eqn:E; cbn.
    + assert (Hrest : In c rest).
      { change (In c ([v; w; x; y; z] ++ rest)) in Hin.
        apply in_app_or in Hin. destruct Hin as [Hin|Hin]; [|exact Hin].
        rewrite (b85decode_chunk_invalid ords v w x y z c Hin Hc) in E.
        discriminate. }
      rewrite (IH Hrest). reflexivity.
    + apply b85decode_chunk_raise in E. now subst e.
Qed.

Lemma b85decode_loop_app (ords : dict byte Z) (pre post : bytes) :
  len pre mod 5 = 0 ->
  b85decode_loop ords (pre ++ post) =
  (us1 <- b85decode_loop ords pre ;;
   us2 <- b85decode_loop ords post ;;
   Ok (us1 ++ us2)).
Proof.
  intros Hpre. pattern pre. apply chunks_ind; [| |exact Hpre].
  - cbn. destruct (b85decode_loop ords post); reflexivity.
  - intros v w x y z rest IH.
    change ((v :: w :: x :: y :: z :: rest) ++ post)
      with (v :: w :: x :: y :: z :: (rest ++ post)).
    cbn [b85decode_loop]. rewrite IH.
    destruct (b85decode_chunk ords v w x y z); cbn; [|reflexivity].
    destruct (b85decode_loop ords rest); cbn; [|reflexivity].
    destruct (b85decode_loop ords post); reflexivity.
Qed.

Lemma pack_uint32_app (us1 us2 : list Z) :
  pack_uint32 (us1 ++ us2) = pack_uint32 us1 ++ pack_uint32 us2.
Proof. unfold pack_uint32. apply flat_map_app. Qed.

Lemma b85decode_pad_incl (encoded : bytes) (chars : list byte) (c : byte) :
  In c encoded -> In c (b85decode_pad encoded chars).
Proof.
  intros Hin. unfold b85decode_pad.
  destruct (len encoded mod 5 =? 0); [exact Hin|].
  apply in_or_app. now left.
Qed.

(** [b85decode] once the compaction step has produced [text]. *)
Lemma b85decode_after_uncompact (encoded : bytes) (prefix suffix : option bytes)
    (ords : dict byte Z) (chars : list byte) (ign unc : bool) (cc : bytes)
    (text : bytes) :
  b85decode_uncompact (b85decode_strip encoded prefix suffix ign) unc cc
    = Ok text ->
  b85decode encoded prefix suffix ords chars ign unc cc =
  (uint32s <- b85decode_loop ords (b85decode_pad text chars) ;;
   Ok (if negb (b85decode_padding_size (len text) =? 0)
       then drop_last (Z.to_nat (b85decode_padding_size (len text)))
                      (pack_uint32 uint32s)
       else pack_uint32 uint32s)).
Proof.
  intros Htext. unfold b85decode. rewrite Htext. reflexivity.
Qed.

(** C6 (as amended) -- when the text left after whitespace, prefix and
    suffix removal and compaction expansion contains a symbol outside the
    alphabet, [b85decode] raises [OverflowError], the exception it also
    raises for a chunk above 2^32 - 1. *)
Theorem b85decode_invalid_symbol (encoded : bytes)
    (prefix suffix : option bytes) (ords : dict byte Z) (chars : list byte)
    (ign unc : bool) (cc : bytes) (text : bytes) (c : byte) :
  b85decode_uncompact (b85decode_strip encoded prefix suffix ign) unc cc
    = Ok text ->
  In c text ->
  dict_lookup ords c = None ->
  b85decode encoded prefix suffix ords chars ign unc cc = Raise OverflowError.
Proof.
  intros Htext Hin Hc.
  rewrite (b85decode_after_uncompact _ _ _ _ _ _ _ _ _ Htext).
  rewrite (b85decode_loop_invalid ords (b85decode_pad text chars) c).
  - reflexivity.
  - apply b85decode_pad_mod5.
  - apply b85decode_pad_incl, Hin.
  - exact Hc.
Qed.

Lemma b85decode_invalid_symbol_witness :
  b85decode (b "<~ab cv~>") (Some ASCII85_PREFIX) (Some ASCII85_SUFFIX)
            ASCII85_ORDS ASCII85_CHARS true true ZERO_GROUP_CHAR
    = Raise OverflowError.
Proof.
  apply (b85decode_invalid_symbol _ _ _ _ _ _ _ _ (b "abcv") "v"%byte).
  - vm_compute. reflexivity.
  - vm_compute. tauto.
  - vm_compute. reflexivity.
Defined.

(** C6 (as stated) fails: the text [v], whose only symbol is outside the
    ASCII85 alphabet, and the text [s8W-] followed by a double quote, a
    chunk of valid symbols worth 2^32, raise one and the same exception. *)
Lemma b85decode_invalid_symbol_not_distinct :
  dict_lookup ASCII85_ORDS "v"%byte = None /\
  ascii85_decode (b "v") None None = Raise OverflowError /\
  b85decode_chunk_value ASCII85_ORDS x73 x38 x57 x2d x22 = Ok 4294967296 /\
  ascii85_decode [x73; x38; x57; x2d; x22] None None = Raise OverflowError.
Proof.
  repeat split; vm_compute; reflexivity.
Qed.

(** C7 -- in [b85decode], a padded five-symbol chunk whose fold is exactly
    2^32 makes the call raise [OverflowError]; one whose fold is exactly
    2^32 - 1 is accepted: decoding goes on with the chunks after it and the
    group is packed as the four bytes [ff ff ff ff]. *)
Theorem b85decode_overflow_boundary (encoded : bytes)
    (prefix suffix : option bytes) (ords : dict byte Z) (chars : list byte)
    (ign unc : bool) (cc : bytes) (text pre post : bytes)
    (v w x y z : byte) (V : Z) :
  b85decode_uncompact (b85decode_strip encoded prefix suffix ign) unc cc
    = Ok text ->
  b85decode_pad text chars = pre ++ [v; w; x; y; z] ++ post ->
  len pre mod 5 = 0 ->
  b85decode_chunk_value ords v w x y z = Ok V ->
  4294967295 <= V <= 4294967296 ->
  b85decode encoded prefix suffix ords chars ign unc cc =
  if V =? 4294967296 then Raise OverflowError
  else
    us1 <- b85decode_loop ords pre ;;
    us2 <- b85decode_loop ords post ;;
    let raw_bytes :=
      pack_uint32 us1 ++ [xff; xff; xff; xff] ++ pack_uint32 us2 in
    let padding_size := b85decode_padding_size (len text) in
    Ok (if negb (padding_size =? 0)
        then drop_last (Z.to_nat padding_size) raw_bytes
        else raw_bytes).
Proof.
  intros Htext Hsplit Hpre Hval HV.
  rewrite (b85decode_after_uncompact _ _ _ _ _ _ _ _ _ Htext).
  rewrite Hsplit, (b85decode_loop_app ords pre _ Hpre).
  change ([v; w; x; y; z] ++ post) with (v :: w :: x :: y :: z :: post).
  cbn [b85decode_loop]. unfold b85decode_chunk. rewrite Hval.
  unfold except_KeyError.
  destruct (Z.eqb_spec V 4294967296) as [-> | Hne].
  - destruct (b85decode_loop ords pre) as [us1|e] eqn:E; cbn.
    + reflexivity.
    + apply b85decode_loop_raise in E; [now subst e | exact Hpre].
  - assert (V = 4294967295) as -> by lia.
    destruct (b85decode_loop ords pre) as [us1|e]; cbn; [|reflexivity].
    destruct (b85decode_loop ords post) as [us2|e]; cbn; [|reflexivity].
    rewrite pack_uint32_app. reflexivity.
Qed.

Lemma b85decode_overflow_boundary_witness :
  ascii85_decode [x73; x38; x57; x2d; x22] None None = Raise OverflowError /\
  ascii85_decode (b "s8W-!") None None = Ok [xff; xff; xff; xff].
Proof.
  split.
  - apply (b85decode_overflow_boundary [x73; x38; x57; x2d; x22] None None
             ASCII85_ORDS ASCII85_CHARS true true ZERO_GROUP_CHAR
             [x73; x38; x57; x2d; x22] [] [] x73 x38 x57 x2d x22 4294967296).
    + vm_compute. reflexivity.
    + vm_compute. reflexivity.
    + vm_compute. reflexivity.
    + vm_compute. reflexivity.
    + lia.
  - apply (b85decode_overflow_boundary (b "s8W-!") None None
             ASCII85_ORDS ASCII85_CHARS true true ZERO_GROUP_CHAR
             (b "s8W-!") [] [] "s"%byte "8"%byte "W"%byte "-"%byte "!"%byte
             4294967295).
    + vm_compute. reflexivity.
    + vm_compute. reflexivity.
    + vm_compute. reflexivity.
    + vm_compute. reflexivity.
    + lia.
Defined.

(** ** The compaction check *)

Lemma bytes_eqb_single (x y : byte) : bytes_eqb [x] [y] = Byte.eqb x y.
Proof.
  destruct (Byte.eqb x y) eqn:E.
  - apply Byte.byte_dec_bl in E. subst y. apply bytes_eqb_refl.
  - destruct (bytes_eqb [x] [y]) eqn:E'; [|reflexivity].
    apply bytes_eqb_eq in E'. injection E' as ->.
    now rewrite (@Byte.byte_dec_lb y y eq_refl) in E.
Qed.

Lemma byte_eqb_refl (x : byte) : Byte.eqb x x = true.
Proof. now apply Byte.byte_dec_lb. Qed.

Lemma symbols_before_zero (zc : byte) (rest : bytes) (i : nat) :
  symbols_before zc (zc :: rest) (S i) = symbols_before zc rest i.
Proof.
  unfold symbols_before. cbn [firstn filter].
  now rewrite byte_eqb_refl.
Qed.

Lemma symbols_before_other (zc x : byte) (rest : bytes) (i : nat) :
  Byte.eqb x zc = false ->
  symbols_before zc (x :: rest) (S i) = 1 + symbols_before zc rest i.
Proof.
  intros E. unfold symbols_before, len. cbn [firstn filter].
  rewrite E. cbn [negb length]. lia.
Qed.

Lemma _check_compact_loop_result (zc : byte) (counter : Z) (s : bytes) :
  _check_compact_loop [zc] 5 counter s = Ok tt \/
  _check_compact_loop [zc] 5 counter s = Raise ValueError.
Proof.
  revert counter. induction s as [|x rest IH]; intros counter; cbn.
  - now left.
  - destruct (bytes_eqb [x] [zc]); [|apply IH].
    destruct (negb (counter mod 5 =? 0)); [now right | apply IH].
Qed.

Lemma _check_compact_loop_spec (zc : byte) (s : bytes) (counter : Z) :
  _check_compact_loop [zc] 5 counter s = Raise ValueError <->
  exists i, nth_error s i = Some zc /\
            (counter + symbols_before zc s i) mod 5 <> 0.
Proof.
  revert counter. induction s as [|x rest IH]; intros counter.
  - cbn. split; [discriminate|]. intros [[|i] [Hi _]]; discriminate.
  - cbn [_check_compact_loop]. rewrite bytes_eqb_single.
    destruct (Byte.eqb x zc) eqn:Ex.
    + apply Byte.byte_dec_bl in Ex. subst x.
      destruct (Z.eqb_spec (counter mod 5) 0) as [Hc|Hc]; cbn [negb].
      * rewrite IH. split.
        -- intros [i [Hi Hm]]. exists (S i). split; [exact Hi|].
           rewrite symbols_before_zero. zlia.
        -- intros [[|i] [Hi Hm]].
           ++ exfalso. apply Hm. unfold symbols_before. cbn. zlia.
           ++ exists i. split; [exact Hi|].
              rewrite symbols_before_zero in Hm. zlia.
      * split; [|reflexivity]. intros _. exists 0%nat.
        split; [reflexivity|]. unfold symbols_before. cbn. zlia.
    + rewrite IH. split.
      * intros [i [Hi Hm]]. exists (S i). split; [exact Hi|].
        rewrite (symbols_before_other _ _ _ _ Ex). zlia.
      * intros [[|i] [Hi Hm]].
        -- cbn in Hi. injection Hi as ->.
           now rewrite byte_eqb_refl in Ex.
        -- exists i. split; [exact Hi|].
           rewrite (symbols_before_other _ _ _ _ Ex) in Hm. zlia.
Qed.

(** C2 (as amended) -- with compaction enabled, [b85decode] raises
    [ValueError] exactly when the text left after whitespace, prefix and
    suffix removal has a compaction symbol preceded by a number of other
    symbols that is not a multiple of 5 (each earlier compaction symbol
    stands for a whole group); any other outcome of the call, a result
    included, has every compaction symbol on a group boundary. *)
Theorem b85decode_compaction_check (encoded : bytes)
    (prefix suffix : option bytes) (ords : dict byte Z) (chars : list byte)
    (ign : bool) (zc : byte) :
  b85decode encoded prefix suffix ords chars ign true [zc] = Raise ValueError
  <->
  exists i,
    nth_error (b85decode_strip encoded prefix suffix ign) i = Some zc /\
    symbols_before zc (b85decode_strip encoded prefix suffix ign) i mod 5
      <> 0.
Proof.
  set (text := b85decode_strip encoded prefix suffix ign).
  rewrite <- (_check_compact_loop_spec zc text 0).
  unfold b85decode. fold text.
  unfold b85decode_uncompact, _check_compact_char_occurrence.
  destruct (_check_compact_loop_result zc 0 text) as [E|E]; rewrite E.
  - cbn [bind]. split; [|discriminate].
    destruct (b85decode_loop ords _) as [us|e] eqn:El; cbn [bind];
      [discriminate|].
    apply b85decode_loop_raise in El; [|apply b85decode_pad_mod5].
    subst e. discriminate.
  - cbn [bind]. tauto.
Qed.

(** C2 (as stated) fails: in [zz] the second compaction symbol is at index
    1, not a multiple of 5, and in [zabcdez] at index 6, and both texts
    are decoded. *)
Lemma b85decode_compaction_index_accepted :
  nth_error (b "zz") 1 = Some "z"%byte /\
  ascii85_decode (b "zz") None None =
    Ok [x00; x00; x00; x00; x00; x00; x00; x00] /\
  nth_error (b "zabcdez") 6 = Some "z"%byte /\
  ascii85_decode (b "zabcdez") None None =
    Ok [x00; x00; x00; x00; xc9; x89; xa3; xa2; x00; x00; x00; x00].
Proof.
  repeat split; vm_compute; reflexivity.
Qed.

(** ** Positional digits *)

Section Digits.

Variable base : Z.
Hypothesis Hbase : 2 <= base.

Lemma horner_app (ds : list Z) (d : Z) :
  horner base (ds ++ [d]) = horner base ds * base + d.
Proof. unfold horner. rewrite fold_left_app. reflexivity. Qed.

Lemma fold_horner_nonneg (ds : list Z) (acc : Z) :
  Forall (digit base) ds -> 0 <= acc ->
  acc <= fold_left (fun acc d => acc * base + d) ds acc.
Proof.
  revert acc. induction ds as [|d ds IH]; intros acc Hds Hacc; cbn.
  - lia.
  - inversion Hds as [|? ? Hd Hds']; subst. unfold digit in Hd.
    etransitivity; [|apply IH; [exact Hds' | nia]]. nia.
Qed.

Lemma horner_nonneg (ds : list Z) : Forall (digit base) ds -> 0 <= horner base ds.
Proof. intros Hds. now apply fold_horner_nonneg. Qed.

Lemma horner_pos (ds : list Z) :
  Forall (digit base) ds -> no_leading_zero ds -> ds <> [] -> 0 < horner base ds.
Proof.
  intros Hds Hz Hne. destruct ds as [|d ds]; [contradiction|].
  inversion Hds as [|? ? Hd Hds']; subst. unfold digit in Hd.
  cbn in Hz. unfold horner. cbn [fold_left].
  pose proof (fold_horner_nonneg ds (0 * base + d) Hds'). lia.
Qed.

Lemma horner_zeros (k : nat) (ds : list Z) :
  horner base (repeat 0 k ++ ds) = horner base ds.
Proof.
  induction k as [|k IH]; [reflexivity|].
  unfold horner in *. cbn [repeat app fold_left].
  replace (0 * base + 0) with 0 by lia. exact IH.
Qed.

Lemma no_leading_zero_app (ds : list Z) (d : Z) :
  no_leading_zero (ds ++ [d]) -> ds <> [] -> no_leading_zero ds.
Proof. destruct ds; [contradiction | cbn; tauto]. Qed.

(** Two lists of digits without leading zeros and of the same value are
    the same list. *)
Lemma horner_inj (ds1 ds2 : list Z) :
  Forall (digit base) ds1 -> Forall (digit base) ds2 ->
  no_leading_zero ds1 -> no_leading_zero ds2 ->
  horner base ds1 = horner base ds2 -> ds1 = ds2.
Proof.
  revert ds2. induction ds1 as [|d1 ds1 IH] using rev_ind; intros ds2.
  - intros _ H2 _ Hz2 Hv. destruct ds2 as [|d ds2]; [reflexivity|].
    pose proof (horner_pos (d :: ds2) H2 Hz2 ltac:(discriminate)).
    change (horner base []) with 0 in Hv. lia.
  - destruct ds2 as [|d2 ds2 _] using rev_ind.
    + intros H1 _ Hz1 _ Hv.
      pose proof (horner_pos (ds1 ++ [d1]) H1 Hz1
                    ltac:(now destruct ds1)).
      change (horner base []) with 0 in Hv. lia.
    + intros H1 H2 Hz1 Hz2 Hv. rewrite !horner_app in Hv.
      apply Forall_app in H1 as [H1 Hd1], H2 as [H2 Hd2].
      inversion Hd1 as [|? ? Hd1' _]; inversion Hd2 as [|? ? Hd2' _]; subst.
      unfold digit in Hd1', Hd2'.
      pose proof (horner_nonneg ds1 H1). pose proof (horner_nonneg ds2 H2).
      assert (horner base ds1 = horner base ds2 /\ d1 = d2) as [Hv' ->].
      { split.
        - rewrite (Z.div_unique_pos (horner base ds1 * base + d1) base
                     (horner base ds1) d1) by lia.
          rewrite Hv. symmetry. apply Z.div_unique_pos with d2; lia.
        - rewrite (Z.mod_unique_pos (horner base ds1 * base + d1) base
                     (horner base ds1) d1) by lia.
          rewrite Hv. symmetry.
          apply Z.mod_unique_pos with (horner base ds2); lia. }
      f_equal. apply IH; try assumption.
      * destruct ds1 as [|a ds1]; [exact I|].
        apply (no_leading_zero_app _ _ Hz1). discriminate.
      * destruct ds2 as [|a ds2]; [exact I|].
        apply (no_leading_zero_app _ _ Hz2). discriminate.
Qed.

(** With enough fuel the loop runs until [number] is 0 and leaves the
    digits of [number], without a leading zero, in front of [acc]. *)
Lemma digits_loop_spec (fuel : nat) (number : Z) (acc : list Z) :
  0 <= number < 2 ^ Z.of_nat fuel ->
  exists ds,
    digits_loop base fuel number acc = ds ++ acc /\
    Forall (digit base) ds /\ no_leading_zero ds /\ horner base ds = number.
Proof.
  revert number acc. induction fuel as [|fuel IH]; intros number acc Hn.
  - exists []. cbn in *. repeat split; [constructor | lia].
  - cbn [digits_loop].
    destruct (Z.gtb_spec number 0) as [Hpos|Hzero].
    + assert (Hq : 0 <= number / base < 2 ^ Z.of_nat fuel).
      { rewrite Nat2Z.inj_succ, Z.pow_succ_r in Hn by lia.
        split; [apply Z.div_pos; lia|].
        apply Z.div_lt_upper_bound; nia. }
      destruct (IH (number / base) (number mod base :: acc) Hq)
        as [ds [Hloop [Hds [Hz Hv]]]].
      assert (Hr : 0 <= number mod base < base)
        by (apply Z.mod_pos_bound; lia).
      exists (ds ++ [number mod base]). repeat split.
      * rewrite Hloop, <- app_assoc. reflexivity.
      * apply Forall_app. split; [exact Hds|]. now constructor.
      * destruct ds as [|d ds]; [|exact Hz].
        cbn. unfold horner in Hv. cbn in Hv.
        pose proof (Z.div_mod number base ltac:(lia)). lia.
      * rewrite horner_app, Hv.
        pose proof (Z.div_mod number base ltac:(lia)). lia.
    + exists []. repeat split; [constructor | cbn; lia].
Qed.

Lemma iterations_enough (number : Z) :
  0 <= number -> 0 <= number < 2 ^ Z.of_nat (iterations number).
Proof.
  intros Hn. split; [exact Hn|]. unfold iterations.
  rewrite Nat2Z.inj_succ, Z2Nat.id by apply Z.log2_nonneg.
  destruct (Z.eq_dec number 0) as [->|Hne]; [reflexivity|].
  apply Z.log2_spec. lia.
Qed.

End Digits.

(** ** The naive Base58 and Base62 codecs *)

Lemma fold_left_map_ord (s : bytes) (acc : Z) :
  fold_left (fun number c => number * 256 + ord c) s acc =
  fold_left (fun acc d => acc * 256 + d) (map ord s) acc.
Proof.
  revert acc. induction s as [|c s IH]; intros acc; cbn; [reflexivity|].
  apply IH.
Qed.

Lemma bytes_to_uint_horner (raw_bytes : bytes) :
  bytes_to_uint raw_bytes = horner 256 (map ord raw_bytes).
Proof. apply fold_left_map_ord. Qed.

Lemma Forall_digit_ord (s : bytes) : Forall (digit 256) (map ord s).
Proof.
  apply Forall_map, Forall_forall. intros c _. apply ord_range.
Qed.

Lemma map_chr_ord (s : bytes) : map chr (map ord s) = s.
Proof.
  rewrite map_map. rewrite <- (map_id s) at 2.
  apply map_ext. apply chr_ord.
Qed.

Lemma uint_to_bytes_loop_digits (fuel : nat) (number : Z) (acc : list Z) :
  uint_to_bytes_loop fuel number (map chr acc) =
  map chr (digits_loop 256 fuel number acc).
Proof.
  revert number acc. induction fuel as [|fuel IH]; intros number acc; cbn.
  - reflexivity.
  - destruct (number >? 0); [|reflexivity].
    apply (IH (number / 256) (number mod 256 :: acc)).
Qed.

(** [uint_to_bytes] inverts [bytes_to_uint] on byte strings without a
    leading zero byte. *)
Lemma uint_to_bytes_bytes_to_uint (rest : bytes) :
  no_leading_zero (map ord rest) -> rest <> [] ->
  uint_to_bytes (bytes_to_uint rest) = rest.
Proof.
  intros Hz Hne. rewrite bytes_to_uint_horner.
  set (n := horner 256 (map ord rest)).
  assert (Hpos : 0 < n).
  { apply horner_pos; [lia | apply Forall_digit_ord | exact Hz |].
    destruct rest; [contradiction | discriminate]. }
  unfold uint_to_bytes.
  destruct (Z.eqb_spec n 0); [lia|].
  change (@nil byte) with (map chr []).
  rewrite uint_to_bytes_loop_digits.
  destruct (digits_loop_spec 256 ltac:(lia) (iterations n) n []
              (iterations_enough n ltac:(lia)))
    as [ds [-> [Hds [Hzds Hv]]]].
  rewrite app_nil_r.
  rewrite (horner_inj 256 ltac:(lia) ds (map ord rest) Hds
             (Forall_digit_ord rest) Hzds Hz Hv).
  apply map_chr_ord.
Qed.

Lemma leading_repeat {A : Type} (p : A -> bool) (z : A) (k : nat)
    (rest : list A) :
  p z = true -> leading p (repeat z k ++ rest) = (k + leading p rest)%nat.
Proof.
  intros Hz. induction k as [|k IH]; cbn; [reflexivity|].
  now rewrite Hz, IH.
Qed.

(** A byte string is its leading zero bytes followed by a string that does
    not start with a zero byte. *)
Lemma leading_zero_bytes (raw_bytes : bytes) :
  exists rest,
    raw_bytes =
      repeat x00 (leading (fun w => Byte.eqb w x00) raw_bytes) ++ rest /\
    no_leading_zero (map ord rest).
Proof.
  induction raw_bytes as [|c s [rest [Hs Hz]]].
  - exists []. split; [reflexivity | exact I].
  - cbn [leading]. destruct (Byte.eqb c x00) eqn:Ec.
    + apply Byte.byte_dec_bl in Ec. subst c.
      exists rest. split; [|exact Hz].
      cbn [repeat app]. now rewrite <- Hs.
    + exists (c :: s). split; [reflexivity|].
      cbn. intros Hc. rewrite <- (chr_ord c), Hc in Ec.
      discriminate.
Qed.

Section NaiveCodec.

Variables (base : Z) (charset : list byte) (lookup : dict byte Z).
Hypothesis Hbase : 2 <= base.
Hypothesis Hlen : len charset = base.
Hypothesis Hinv : inverts lookup charset (Z.to_nat base) = true.
Hypothesis Hnospace : forallb (fun c => negb (is_space c)) charset = true.

Let sym (d : Z) : byte := getitem x00 charset d.

Lemma lookup_sym (d : Z) : digit base d -> dict_get lookup (sym d) = Ok d.
Proof.
  intros Hd. apply (inverts_get lookup charset (Z.to_nat base) d Hinv).
  unfold digit in Hd. lia.
Qed.

Lemma sym_nonzero (d : Z) : digit base d -> d <> 0 -> sym d <> sym 0.
Proof.
  intros Hd Hne Heq.
  pose proof (lookup_sym d Hd) as H1.
  pose proof (lookup_sym 0 ltac:(unfold digit; lia)) as H2.
  rewrite Heq, H2 in H1. congruence.
Qed.

Lemma encode_naive_loop_digits (fuel : nat) (number : Z) (acc : list Z) :
  encode_naive_loop base charset fuel number (map sym acc) =
  map sym (digits_loop base fuel number acc).
Proof.
  revert number acc. induction fuel as [|fuel IH]; intros number acc; cbn.
  - reflexivity.
  - destruct (number >? 0); [|reflexivity].
    apply (IH (number / base) (number mod base :: acc)).
Qed.

Lemma strip_whitespace_symbols (ds : list Z) :
  Forall (digit base) ds -> strip_whitespace (map sym ds) = map sym ds.
Proof.
  induction 1 as [|d ds Hd _ IH]; [reflexivity|].
  cbn [map]. unfold strip_whitespace in *. cbn [filter].
  rewrite forallb_forall in Hnospace.
  rewrite (Hnospace (sym d)), IH; [reflexivity|].
  apply getitem_In. unfold digit in Hd. lia.
Qed.

Lemma weighted_shift (ds : list Z) (k : Z) :
  0 <= k -> weighted base ds (k + 1) = base * weighted base ds k.
Proof.
  revert k. induction ds as [|d ds IH]; intros k Hk; cbn; [lia|].
  rewrite (IH (k + 1)) by lia. rewrite Z.pow_add_r, Z.pow_1_r by lia.
  ring.
Qed.

Lemma weighted_rev (ds : list Z) : weighted base (rev ds) 0 = horner base ds.
Proof.
  induction ds as [|d ds IH] using rev_ind; [reflexivity|].
  rewrite rev_unit, horner_app. cbn [weighted].
  rewrite (weighted_shift (rev ds) 0) by lia. rewrite IH, Z.pow_0_r.
  change (0 + 1) with 1. ring.
Qed.

Lemma decode_naive_loop_weighted (ds : list Z) (k : nat) (number : Z) :
  Forall (digit base) ds ->
  decode_naive_loop base lookup
    (combine (map Z.of_nat (seq k (length ds))) (map sym ds)) number =
  Ok (number + weighted base ds (Z.of_nat k)).
Proof.
  intros Hds. revert k number.
  induction Hds as [|d ds Hd _ IH]; intros k number; cbn.
  - f_equal. lia.
  - rewrite (lookup_sym d Hd). cbn [bind]. rewrite IH.
    f_equal. rewrite Nat2Z.inj_succ. unfold Z.succ. lia.
Qed.

Lemma decode_naive_number (ds : list Z) :
  Forall (digit base) ds ->
  decode_naive_loop base lookup (enumerate (rev (map sym ds))) 0 =
  Ok (horner base ds).
Proof.
  intros Hds. unfold enumerate, range.
  rewrite <- map_rev, length_map.
  rewrite decode_naive_loop_weighted by (apply Forall_rev, Hds).
  now rewrite weighted_rev.
Qed.

Lemma leading_symbols (ds : list Z) :
  Forall (digit base) ds -> no_leading_zero ds ->
  leading (fun w => Byte.eqb w (sym 0)) (map sym ds) = 0%nat.
Proof.
  intros Hds Hz. destruct ds as [|d ds]; [reflexivity|].
  apply Forall_inv in Hds. cbn in Hz |- *.
  destruct (Byte.eqb (sym d) (sym 0)) eqn:E; [|reflexivity].
  apply Byte.byte_dec_bl in E. now apply sym_nonzero in E.
Qed.

(** Decoding inverts encoding, for the defaults of the source:
    [_padding=True] and [_zero_byte=ZERO_BYTE]. *)
Lemma decode_encode_naive (raw_bytes : bytes) :
  decode_naive base (encode_naive base raw_bytes charset true ZERO_BYTE)
               charset lookup = Ok raw_bytes.
Proof.
  destruct (leading_zero_bytes raw_bytes) as [rest [Hraw Hz]].
  set (k := leading (fun w => Byte.eqb w x00) raw_bytes) in Hraw.
  set (n := bytes_to_uint raw_bytes).
  assert (Hn : n = horner 256 (map ord rest)).
  { unfold n. rewrite bytes_to_uint_horner, Hraw at 1.
    rewrite map_app, map_repeat. change (ord x00) with 0.
    apply horner_zeros. }
  assert (Hn0 : 0 <= n).
  { rewrite Hn. apply horner_nonneg; [lia | apply Forall_digit_ord]. }
  destruct (digits_loop_spec base Hbase (iterations n) n []
              (iterations_enough n Hn0))
    as [ds [Hloop [Hds [Hzds Hv]]]].
  rewrite app_nil_r in Hloop.
  assert (Henc : encode_naive base raw_bytes charset true ZERO_BYTE =
                 map sym (repeat 0 k ++ ds)).
  { unfold encode_naive. fold n.
    change (@nil byte) with (map sym []).
    rewrite encode_naive_loop_digits, Hloop.
    change (getitem x00 ZERO_BYTE 0) with x00. fold k.
    rewrite map_app, map_repeat. reflexivity. }
  assert (Hall : Forall (digit base) (repeat 0 k ++ ds)).
  { apply Forall_app. split; [|exact Hds].
    apply Forall_forall. intros d Hd. apply repeat_spec in Hd.
    subst d. unfold digit. lia. }
  rewrite Henc. unfold decode_naive.
  rewrite (strip_whitespace_symbols _ Hall).
  rewrite (decode_naive_number _ Hall). cbn [bind].
  rewrite horner_zeros, Hv.
  assert (Hraw_bytes : (if n =? 0 then [] else uint_to_bytes n) = rest).
  { destruct rest as [|c rest'].
    - rewrite Hn. reflexivity.
    - destruct (Z.eqb_spec n 0) as [H0|_].
      + pose proof (horner_pos 256 ltac:(lia) (map ord (c :: rest'))
                      (Forall_digit_ord _) Hz ltac:(discriminate)).
        lia.
      + rewrite Hn, <- bytes_to_uint_horner.
        apply uint_to_bytes_bytes_to_uint; [exact Hz | discriminate]. }
  rewrite Hraw_bytes.
  rewrite map_app, map_repeat. fold (sym 0).
  rewrite leading_repeat by apply byte_eqb_refl.
  rewrite (leading_symbols ds Hds Hzds), Nat.add_0_r.
  f_equal. symmetry. etransitivity; [exact Hraw|].
  destruct (Nat.ltb_spec 0 k) as [_|Hk]; [reflexivity|].
  assert (Hk0 : k = 0%nat) by lia. now rewrite Hk0.
Qed.

End NaiveCodec.

(** C5 -- for every byte sequence [x], the empty one and the all-zero ones
    included, [b58decode_naive] inverts [b58encode_naive] and
    [b62decode_naive] inverts [b62encode_naive]. *)
Theorem naive_codecs_roundtrip (x : bytes) :
  b58decode_naive (b58encode_naive x ASCII58_CHARSET true ZERO_BYTE)
                  ASCII58_CHARSET ASCII58_ORDS = Ok x /\
  b62decode_naive (b62encode_naive x ASCII62_CHARSET true ZERO_BYTE)
                  ASCII62_CHARSET ASCII62_ORDS = Ok x.
Proof.
  split.
  - apply decode_encode_naive.
    + lia.
    + reflexivity.
    + exact ASCII58_ORDS_inverts.
    + vm_compute. reflexivity.
  - apply decode_encode_naive.
    + lia.
    + reflexivity.
    + exact ASCII62_ORDS_inverts.
    + vm_compute. reflexivity.
Qed.

(** ** The Base62 example vector *)

(** C9 -- at [raw_data] the code does not give the example vector.
    Whatever the character set, [b62encode_naive] of [raw_data] is the
    text of the symbols of [raw_data_digits], whose entry at index 20 is
    47.  In the alphabet in natural ASCII order symbol 47 is [l], so the
    text is [01041W9weGIezvwKmSO0laL8BGx4qp64Q8] and not the vector
    [01041W9weGIezvwKmSO0kaL8BGx4qp64Q8], whose [k] is symbol 46; and
    [b62decode_naive] of the vector, without whitespace or with the line
    breaks of the test module, returns the bytes of hex
    [005cc87f4a3fdfe3a2346b6953267c7e0b968694984083ae64], which are not
    [raw_data]. *)
Theorem b62_example_vector_broken :
  (forall _charset : list byte,
     b62encode_naive raw_data _charset true ZERO_BYTE =
     map (getitem x00 _charset) raw_data_digits) /\
  getitem 0 raw_data_digits 20 = 47 /\
  getitem x00 ASCII62_CHARSET 47 = "l"%byte /\
  getitem x00 ASCII62_CHARSET 46 = "k"%byte /\
  b62encode_naive raw_data ASCII62_CHARSET true ZERO_BYTE
    = b "01041W9weGIezvwKmSO0laL8BGx4qp64Q8" /\
  b62encode_naive raw_data ASCII62_CHARSET true ZERO_BYTE
    <> b "01041W9weGIezvwKmSO0kaL8BGx4qp64Q8" /\
  b62decode_naive (b "01041W9weGIezvwKmSO0kaL8BGx4qp64Q8")
    ASCII62_CHARSET ASCII62_ORDS
    = Ok [x00; x5c; xc8; x7f; x4a; x3f; xdf; xe3; xa2; x34; x6b; x69; x53;
          x26; x7c; x7e; x0b; x96; x86; x94; x98; x40; x83; xae; x64] /\
  b62decode_naive
    ([x0a] ++ b "01041W9weGIezvwKmS" ++ [x0a] ++ b "O0kaL8BGx4qp64Q8"
       ++ [x0a])
    ASCII62_CHARSET ASCII62_ORDS
    = Ok [x00; x5c; xc8; x7f; x4a; x3f; xdf; xe3; xa2; x34; x6b; x69; x53;
          x26; x7c; x7e; x0b; x96; x86; x94; x98; x40; x83; xae; x64] /\
  [x00; x5c; xc8; x7f; x4a; x3f; xdf; xe3; xa2; x34; x6b; x69; x53;
   x26; x7c; x7e; x0b; x96; x86; x94; x98; x40; x83; xae; x64] <> raw_data.
Proof.
  split; [intros _charset; vm_compute; reflexivity|].
  split; [reflexivity|].
  split; [reflexivity|].
  split; [reflexivity|].
  split; [vm_compute; reflexivity|].
  split; [vm_compute; intros H; discriminate H|].
  split; [vm_compute; reflexivity|].
  split; [vm_compute; reflexivity|].
  vm_compute. intros H. discriminate H.
Qed.

(** ** The Base85 block codec: decoding inverts encoding *)

Lemma b85encode_unfold (raw_bytes : bytes) (prefix suffix : option bytes)
    (chars : list byte) (cz : bool) (cc : bytes) :
  b85encode raw_bytes prefix suffix false chars cz cc POW_85 =
  or_empty prefix
    ++ (if cz then replace EXCLAMATION_CHUNK cc (b85encode_chars chars raw_bytes)
        else b85encode_chars chars raw_bytes)
    ++ or_empty suffix.
Proof.
  unfold b85encode, b85encode_chars. cbn [negb]. rewrite andb_true_r.
  reflexivity.
Qed.

Lemma uint32_of_range (c0 c1 c2 c3 : byte) :
  0 <= uint32_of c0 c1 c2 c3 <= 4294967295.
Proof.
  unfold uint32_of.
  pose proof (ord_range c0). pose proof (ord_range c1).
  pose proof (ord_range c2). pose proof (ord_range c3). lia.
Qed.

Lemma pack_uint32_of (c0 c1 c2 c3 : byte) :
  pack_uint32 [uint32_of c0 c1 c2 c3] = [c0; c1; c2; c3].
Proof.
  unfold pack_uint32, uint32_of. cbn [flat_map app].
  pose proof (ord_range c0). pose proof (ord_range c1).
  pose proof (ord_range c2). pose proof (ord_range c3).
  set (o0 := ord c0) in *. set (o1 := ord c1) in *.
  set (o2 := ord c2) in *. set (o3 := ord c3) in *.
  replace ((((o0 * 256 + o1) * 256 + o2) * 256 + o3) / 16777216) with o0 by zlia.
  replace (((((o0 * 256 + o1) * 256 + o2) * 256 + o3) / 65536) mod 256) with o1 by zlia.
  replace (((((o0 * 256 + o1) * 256 + o2) * 256 + o3) / 256) mod 256) with o2 by zlia.
  replace ((((o0 * 256 + o1) * 256 + o2) * 256 + o3) mod 256) with o3 by zlia.
  unfold o0, o1, o2, o3. now rewrite !chr_ord.
Qed.

Lemma quads_ind (P : bytes -> Prop) :
  (forall s, (length s < 4)%nat -> P s) ->
  (forall c0 c1 c2 c3 rest, P rest -> P (c0 :: c1 :: c2 :: c3 :: rest)) ->
  forall s, P s.
Proof.
  intros Hshort Hquad s.
  remember (length s) as n eqn:Hn. revert s Hn.
  induction n as [n IH] using lt_wf_ind. intros s Hn.
  destruct s as [|c0 [|c1 [|c2 [|c3 rest]]]];
    try (apply Hshort; cbn; lia).
  apply Hquad. apply (IH (length rest)); [cbn in Hn; lia | reflexivity].
Qed.

Lemma unpack_uint32_length (s : bytes) :
  len s - 3 <= 4 * len (unpack_uint32 s) <= len s.
Proof.
  pattern s. apply quads_ind.
  - intros t Ht.
    destruct t as [|c0 [|c1 [|c2 [|c3 ?]]]]; unfold len; cbn in *. all: lia.
  - intros c0 c1 c2 c3 rest IH. cbn [unpack_uint32]. unfold len in *.
    cbn [length]. lia.
Qed.

Lemma len_flat_map_group (chars : list byte) (us : list Z) :
  len (flat_map (b85encode_group chars POW_85) us) = 5 * len us.
Proof.
  induction us as [|u us IH]; [reflexivity|].
  cbn [flat_map]. rewrite len_app, IH.
  change (len (b85encode_group chars POW_85 u)) with 5. unfold len.
  cbn [length]. lia.
Qed.

Lemma drop_last_app {A : Type} (n : nat) (s t : list A) :
  (n <= length t)%nat -> drop_last n (s ++ t) = s ++ drop_last n t.
Proof.
  intros Hn. unfold drop_last. rewrite length_app.
  replace (length s + length t - n)%nat
    with (length s + (length t - n))%nat by lia.
  apply firstn_app_2.
Qed.

Lemma b85encode_chars_quad (chars : list byte) (c0 c1 c2 c3 : byte)
    (rest : bytes) :
  b85encode_chars chars (c0 :: c1 :: c2 :: c3 :: rest) =
  b85encode_group chars POW_85 (uint32_of c0 c1 c2 c3)
    ++ b85encode_chars chars rest.
Proof.
  unfold b85encode_chars.
  replace (len (c0 :: c1 :: c2 :: c3 :: rest) mod 4) with (len rest mod 4)
    by (unfold len; cbn [length]; zlia).
  destruct (Z.eqb_spec (len rest mod 4) 0) as [E|E]; cbn [negb].
  - reflexivity.
  - assert (Hp : (4 - len rest mod 4 =? 0) = false) by (apply Z.eqb_neq; zlia).
    rewrite Hp. cbn [negb].
    change ((c0 :: c1 :: c2 :: c3 :: rest) ++ ?t)
      with (c0 :: c1 :: c2 :: c3 :: (rest ++ t)).
    cbn [unpack_uint32 flat_map]. fold (uint32_of c0 c1 c2 c3).
    apply drop_last_app.
    pose proof (len_flat_map_group chars
      (unpack_uint32 (rest ++ repeat x00 (Z.to_nat (4 - len rest mod 4))))) as Hl.
    pose proof (unpack_uint32_length
      (rest ++ repeat x00 (Z.to_nat (4 - len rest mod 4)))) as Hu.
    rewrite len_app, len_repeat in Hu.
    pose proof (len_nonneg rest).
    unfold len in *. zlia.
Qed.

Lemma b85decode_loop_length (ords : dict byte Z) (s : bytes) (us : list Z) :
  len s mod 5 = 0 -> b85decode_loop ords s = Ok us -> len s = 5 * len us.
Proof.
  intros Hs. revert us. pattern s. apply chunks_ind; [| |exact Hs].
  - intros us [= <-]. reflexivity.
  - intros v w x y z rest IH us. cbn [b85decode_loop].
    destruct (b85decode_chunk ords v w x y z) as [u|e]; cbn [bind];
      [|discriminate].
    destruct (b85decode_loop ords rest) as [us'|e]; cbn [bind];
      [|discriminate].
    intros [= <-]. specialize (IH us' eq_refl).
    unfold len in *. cbn [length]. lia.
Qed.

Lemma len_pack_uint32 (us : list Z) : len (pack_uint32 us) = 4 * len us.
Proof.
  induction us as [|u us IH]; [reflexivity|].
  unfold pack_uint32 in *. cbn [flat_map]. rewrite len_app, IH.
  unfold len. cbn [length]. lia.
Qed.

(** A leading chunk that decodes to [V] contributes the four bytes of [V]
    in front of what the rest of the text decodes to. *)
Lemma b85decode_text_chunk (ords : dict byte Z) (chars : list byte)
    (v w x y z : byte) (t : bytes) (V : Z) :
  b85decode_chunk ords v w x y z = Ok V ->
  b85decode_text ords chars (v :: w :: x :: y :: z :: t) =
  (r <- b85decode_text ords chars t ;; Ok (pack_uint32 [V] ++ r)).
Proof.
  intros HV. unfold b85decode_text.
  assert (Hmod : len (v :: w :: x :: y :: z :: t) mod 5 = len t mod 5)
    by (unfold len; cbn [length]; zlia).
  assert (Hps : b85decode_padding_size (len (v :: w :: x :: y :: z :: t)) =
                b85decode_padding_size (len t))
    by (unfold b85decode_padding_size; now rewrite Hmod).
  assert (Hpad : b85decode_pad (v :: w :: x :: y :: z :: t) chars =
                 v :: w :: x :: y :: z :: b85decode_pad t chars).
  { unfold b85decode_pad. rewrite Hmod.
    destruct (len t mod 5 =? 0); reflexivity. }
  rewrite Hps, Hpad. cbn [b85decode_loop]. rewrite HV. cbn [bind].
  destruct (b85decode_loop ords (b85decode_pad t chars)) as [us|e] eqn:El;
    cbn [bind]; [|reflexivity].
  f_equal. change (pack_uint32 (V :: us)) with (pack_uint32 [V] ++ pack_uint32 us).
  destruct (Z.eqb_spec (b85decode_padding_size (len t)) 0) as [E|E];
    cbn [negb]; [reflexivity|].
  apply drop_last_app.
  apply b85decode_loop_length in El; [|apply b85decode_pad_mod5].
  rewrite b85decode_pad_len in El.
  pose proof (len_pack_uint32 us) as Hl. pose proof (len_nonneg t).
  unfold b85decode_padding_size in *.
  destruct (Z.eqb_spec (len t mod 5) 0); [contradiction|].
  unfold len in *. zlia.
Qed.

Section Base85.

Variables (ords : dict byte Z) (chars : list byte).
Hypothesis Hinv : inverts ords chars 85 = true.

Let sym (d : Z) : byte := getitem x00 chars d.

Lemma b85decode_chunk_value_digits (d0 d1 d2 d3 d4 : Z) :
  0 <= d0 < 85 -> 0 <= d1 < 85 -> 0 <= d2 < 85 -> 0 <= d3 < 85 ->
  0 <= d4 < 85 ->
  b85decode_chunk_value ords (sym d0) (sym d1) (sym d2) (sym d3) (sym d4) =
  Ok ((((d0 * 85 + d1) * 85 + d2) * 85 + d3) * 85 + d4).
Proof.
  intros H0 H1 H2 H3 H4. unfold b85decode_chunk_value, sym.
  rewrite !(inverts_get ords chars 85)
    by (assumption || (change (Z.of_nat 85) with 85; lia)).
  reflexivity.
Qed.

Lemma b85decode_chunk_digits (d0 d1 d2 d3 d4 : Z) :
  0 <= d0 < 85 -> 0 <= d1 < 85 -> 0 <= d2 < 85 -> 0 <= d3 < 85 ->
  0 <= d4 < 85 ->
  (((d0 * 85 + d1) * 85 + d2) * 85 + d3) * 85 + d4 <= 4294967295 ->
  b85decode_chunk ords (sym d0) (sym d1) (sym d2) (sym d3) (sym d4) =
  Ok ((((d0 * 85 + d1) * 85 + d2) * 85 + d3) * 85 + d4).
Proof.
  intros H0 H1 H2 H3 H4 Hle. unfold b85decode_chunk.
  rewrite b85decode_chunk_value_digits by assumption.
  cbn [except_KeyError bind].
  destruct (Z.gtb_spec ((((d0 * 85 + d1) * 85 + d2) * 85 + d3) * 85 + d4)
              4294967295); [lia | reflexivity].
Qed.

(** The digits of a 32-bit group, as [b85encode_group] extracts them. *)
Lemma uint32_digits (V : Z) :
  0 <= V <= 4294967295 ->
  0 <= V / 85 ^ 4 < 85 /\
  V / 85 ^ 3 = 85 * (V / 85 ^ 4) + (V / 85 ^ 3) mod 85 /\
  V / 85 ^ 2 = 85 * (V / 85 ^ 3) + (V / 85 ^ 2) mod 85 /\
  V / 85 = 85 * (V / 85 ^ 2) + (V / 85) mod 85 /\
  V = 85 * (V / 85) + V mod 85.
Proof.
  intros HV. repeat split.
  - apply Z.div_pos; lia.
  - apply Z.div_lt_upper_bound; lia.
  - apply div_pow85_step; lia.
  - apply div_pow85_step; lia.
  - change (V / 85) with (V / 85 ^ 1). apply div_pow85_step; lia.
  - apply Z.div_mod. lia.
Qed.

Lemma b85encode_group_eq (V : Z) :
  b85encode_group chars POW_85 V =
  [ sym (V / 85 ^ 4); sym ((V / 85 ^ 3) mod 85); sym ((V / 85 ^ 2) mod 85);
    sym ((V / 85) mod 85); sym (V mod 85) ].
Proof. unfold b85encode_group. pow85. reflexivity. Qed.

(** A whole group decodes to itself. *)
Lemma b85decode_chunk_group (V : Z) (t : bytes) :
  0 <= V <= 4294967295 ->
  b85decode_text ords chars (b85encode_group chars POW_85 V ++ t) =
  (r <- b85decode_text ords chars t ;; Ok (pack_uint32 [V] ++ r)).
Proof.
  intros HV. rewrite b85encode_group_eq.
  destruct (uint32_digits V HV) as [Htop [E3 [E2 [E1 E0]]]].
  cbn [app]. apply b85decode_text_chunk.
  rewrite b85decode_chunk_digits; try apply mod85_range; try exact Htop.
  - f_equal. lia.
  - lia.
Qed.

(** The last group of an input of 1, 2 or 3 bytes: the characters kept by
    the encoder, padded by the decoder with the symbol of ordinal 84, fold
    to a value whose leading bytes are the input. *)
Lemma b85_tail1 (c0 : byte) :
  b85decode_text ords chars (b85encode_chars chars [c0]) = Ok [c0].
Proof.
  pose proof (ord_range c0) as R0.
  set (V := uint32_of c0 x00 x00 x00).
  assert (HV : V = ord c0 * 16777216)
    by (unfold V, uint32_of; change (ord x00) with 0; lia).
  assert (HVr : 0 <= V <= 4294967295) by apply uint32_of_range.
  destruct (uint32_digits V HVr) as [Htop [E3 _]].
  change (b85encode_chars chars [c0])
    with [sym (V / 85 ^ 4); sym ((V / 85 ^ 3) mod 85)].
  change (b85decode_text ords chars
            [sym (V / 85 ^ 4); sym ((V / 85 ^ 3) mod 85)])
    with (uint32s <-
            (v <- b85decode_chunk ords (sym (V / 85 ^ 4))
                    (sym ((V / 85 ^ 3) mod 85)) (sym 84) (sym 84) (sym 84) ;;
             us <- Ok [] ;; Ok (v :: us)) ;;
          Ok (drop_last 3 (pack_uint32 uint32s))).
  pose proof (mod85_range (V / 85 ^ 3)) as R1.
  assert (Hq : 85 ^ 3 * (V / 85 ^ 3) <= V < 85 ^ 3 * (V / 85 ^ 3) + 85 ^ 3).
  { pose proof (Z.div_mod V (85 ^ 3) ltac:(lia)).
    pose proof (Z.mod_pos_bound V (85 ^ 3) ltac:(lia)). lia. }
  rewrite b85decode_chunk_digits; try lia.
  cbn [bind]. unfold pack_uint32, drop_last. cbn [flat_map app length Nat.sub firstn].
  rewrite <- (chr_ord c0) at 1. do 3 f_equal.
  set (q := V / 85 ^ 3) in *. set (d0 := V / 85 ^ 4) in *.
  set (d1 := q mod 85) in *. clearbody q d0 d1 V. zlia.
Qed.

Lemma b85_tail2 (c0 c1 : byte) :
  b85decode_text ords chars (b85encode_chars chars [c0; c1]) = Ok [c0; c1].
Proof.
  pose proof (ord_range c0) as R0. pose proof (ord_range c1) as R1.
  set (V := uint32_of c0 c1 x00 x00).
  assert (HV : V = (ord c0 * 256 + ord c1) * 65536)
    by (unfold V, uint32_of; change (ord x00) with 0; lia).
  assert (HVr : 0 <= V <= 4294967295) by apply uint32_of_range.
  destruct (uint32_digits V HVr) as [Htop [E3 [E2 _]]].
  change (b85encode_chars chars [c0; c1])
    with [sym (V / 85 ^ 4); sym ((V / 85 ^ 3) mod 85);
          sym ((V / 85 ^ 2) mod 85)].
  change (b85decode_text ords chars
            [sym (V / 85 ^ 4); sym ((V / 85 ^ 3) mod 85);
             sym ((V / 85 ^ 2) mod 85)])
    with (uint32s <-
            (v <- b85decode_chunk ords (sym (V / 85 ^ 4))
                    (sym ((V / 85 ^ 3) mod 85)) (sym ((V / 85 ^ 2) mod 85))
                    (sym 84) (sym 84) ;;
             us <- Ok [] ;; Ok (v :: us)) ;;
          Ok (drop_last 2 (pack_uint32 uint32s))).
  pose proof (mod85_range (V / 85 ^ 3)) as M1.
  pose proof (mod85_range (V / 85 ^ 2)) as M2.
  assert (Hq : 85 ^ 2 * (V / 85 ^ 2) <= V < 85 ^ 2 * (V / 85 ^ 2) + 85 ^ 2).
  { pose proof (Z.div_mod V (85 ^ 2) ltac:(lia)).
    pose proof (Z.mod_pos_bound V (85 ^ 2) ltac:(lia)). lia. }
  rewrite b85decode_chunk_digits; try lia.
  cbn [bind]. unfold pack_uint32, drop_last. cbn [flat_map app length Nat.sub firstn].
  rewrite <- (chr_ord c0) at 1. rewrite <- (chr_ord c1) at 1.
  set (q := V / 85 ^ 2) in *. set (q3 := V / 85 ^ 3) in *.
  set (d0 := V / 85 ^ 4) in *.
  set (d1 := q3 mod 85) in *. set (d2 := q mod 85) in *.
  clearbody q q3 d0 d1 d2 V.
  do 2 f_equal; [|f_equal]; f_equal; zlia.
Qed.

Lemma b85_tail3 (c0 c1 c2 : byte) :
  b85decode_text ords chars (b85encode_chars chars [c0; c1; c2]) =
  Ok [c0; c1; c2].
Proof.
  pose proof (ord_range c0) as R0. pose proof (ord_range c1) as R1.
  pose proof (ord_range c2) as R2.
  set (V := uint32_of c0 c1 c2 x00).
  assert (HV : V = ((ord c0 * 256 + ord c1) * 256 + ord c2) * 256)
    by (unfold V, uint32_of; change (ord x00) with 0; lia).
  assert (HVr : 0 <= V <= 4294967295) by apply uint32_of_range.
  destruct (uint32_digits V HVr) as [Htop [E3 [E2 [E1 _]]]].
  change (b85encode_chars chars [c0; c1; c2])
    with [sym (V / 85 ^ 4); sym ((V / 85 ^ 3) mod 85);
          sym ((V / 85 ^ 2) mod 85); sym ((V / 85) mod 85)].
  change (b85decode_text ords chars
            [sym (V / 85 ^ 4); sym ((V / 85 ^ 3) mod 85);
             sym ((V / 85 ^ 2) mod 85); sym ((V / 85) mod 85)])
    with (uint32s <-
            (v <- b85decode_chunk ords (sym (V / 85 ^ 4))
                    (sym ((V / 85 ^ 3) mod 85)) (sym ((V / 85 ^ 2) mod 85))
                    (sym ((V / 85) mod 85)) (sym 84) ;;
             us <- Ok [] ;; Ok (v :: us)) ;;
          Ok (drop_last 1 (pack_uint32 uint32s))).
  pose proof (mod85_range (V / 85 ^ 3)) as M1.
  pose proof (mod85_range (V / 85 ^ 2)) as M2.
  pose proof (mod85_range (V / 85)) as M3.
  assert (Hq : 85 * (V / 85) <= V < 85 * (V / 85) + 85).
  { pose proof (Z.div_mod V 85 ltac:(lia)).
    pose proof (Z.mod_pos_bound V 85 ltac:(lia)). lia. }
  rewrite b85decode_chunk_digits; try lia.
  cbn [bind]. unfold pack_uint32, drop_last. cbn [flat_map app length Nat.sub firstn].
  rewrite <- (chr_ord c0) at 1. rewrite <- (chr_ord c1) at 1.
  rewrite <- (chr_ord c2) at 1.
  set (q1 := V / 85) in *. set (q2 := V / 85 ^ 2) in *.
  set (q3 := V / 85 ^ 3) in *. set (d0 := V / 85 ^ 4) in *.
  set (d1 := q3 mod 85) in *. set (d2 := q2 mod 85) in *.
  set (d3 := q1 mod 85) in *.
  clearbody q1 q2 q3 d0 d1 d2 d3 V.
  do 2 f_equal; [|f_equal; [|f_equal]]; f_equal; zlia.
Qed.

(** Without compaction, prefix or suffix: decoding inverts encoding. *)
Lemma b85decode_text_encode_chars (raw_bytes : bytes) :
  b85decode_text ords chars (b85encode_chars chars raw_bytes) = Ok raw_bytes.
Proof.
  pattern raw_bytes. apply quads_ind.
  - intros s Hs. destruct s as [|c0 [|c1 [|c2 [|c3 ?]]]].
    + reflexivity.
    + apply b85_tail1.
    + apply b85_tail2.
    + apply b85_tail3.
    + cbn in Hs. lia.
  - intros c0 c1 c2 c3 rest IH.
    rewrite b85encode_chars_quad.
    rewrite b85decode_chunk_group by apply uint32_of_range.
    rewrite IH. cbn [bind]. now rewrite pack_uint32_of.
Qed.

End Base85.

(** *** Whitespace, prefix and suffix *)

Lemma strip_whitespace_id (s : bytes) :
  no_whitespace s -> strip_whitespace s = s.
Proof.
  unfold no_whitespace, strip_whitespace.
  induction s as [|c s IH]; cbn; [reflexivity|].
  intros H. apply andb_prop in H as [Hc Hs]. rewrite Hc. f_equal. now apply IH.
Qed.

Lemma no_whitespace_app (s t : bytes) :
  no_whitespace s -> no_whitespace t -> no_whitespace (s ++ t).
Proof.
  unfold no_whitespace. intros Hs Ht. rewrite forallb_app, Hs, Ht. reflexivity.
Qed.

Lemma startswith_app (p s : bytes) : startswith (p ++ s) p = true.
Proof.
  unfold startswith. rewrite firstn_app, Nat.sub_diag, firstn_all.
  cbn [firstn]. rewrite app_nil_r. apply bytes_eqb_refl.
Qed.

Lemma endswith_app (s q : bytes) : endswith (s ++ q) q = true.
Proof.
  unfold endswith. rewrite length_app.
  replace (length s + length q - length q)%nat with (length s) by lia.
  rewrite skipn_app, Nat.sub_diag, skipn_all. cbn [skipn app].
  rewrite bytes_eqb_refl, andb_true_r. apply Nat.leb_le. lia.
Qed.

Lemma drop_last_suffix (s q : bytes) : drop_last (length q) (s ++ q) = s.
Proof.
  unfold drop_last. rewrite length_app.
  replace (length s + length q - length q)%nat with (length s) by lia.
  rewrite firstn_app, Nat.sub_diag, firstn_all. cbn [firstn].
  apply app_nil_r.
Qed.

(** The decoder finds the body again between a prefix and a suffix, provided
    none of the three holds whitespace. *)
Lemma b85decode_strip_wrapped (prefix suffix : option bytes) (body : bytes) :
  no_whitespace (or_empty prefix) -> no_whitespace (or_empty suffix) ->
  no_whitespace body ->
  b85decode_strip (or_empty prefix ++ body ++ or_empty suffix)
                  prefix suffix true = body.
Proof.
  intros Hp Hq Hb. unfold b85decode_strip.
  rewrite strip_whitespace_id
    by (apply no_whitespace_app; [|apply no_whitespace_app]; assumption).
  set (p := or_empty prefix). set (q := or_empty suffix).
  assert (E1 : (if negb (bytes_eqb p []) && startswith (p ++ body ++ q) p
                then skipn (length p) (p ++ body ++ q)
                else p ++ body ++ q) = body ++ q).
  { rewrite startswith_app, andb_true_r.
    destruct (bytes_eqb p []) eqn:E; cbn [negb].
    - apply bytes_eqb_eq in E. now rewrite E.
    - rewrite skipn_app, Nat.sub_diag, skipn_all. reflexivity. }
  rewrite E1. rewrite endswith_app, andb_true_r.
  destruct (bytes_eqb q []) eqn:E; cbn [negb].
  - apply bytes_eqb_eq in E. rewrite E. apply app_nil_r.
  - apply drop_last_suffix.
Qed.

(** *** Compaction *)

Lemma replace_from_Forall (P : byte -> Prop) (old new : bytes) (skip : nat)
    (s : bytes) :
  Forall P new -> Forall P s -> Forall P (replace_from old new skip s).
Proof.
  intros Hnew Hs. revert skip.
  induction Hs as [|c s Hc _ IH]; intros skip; cbn [replace_from].
  - constructor.
  - destruct skip as [|k]; [|apply IH].
    destruct (startswith (c :: s) old).
    + apply Forall_app. split; [exact Hnew | apply IH].
    + constructor; [exact Hc | apply IH].
Qed.

(** Expanding the compaction character undoes the compaction of a text
    that does not hold that character. *)
Lemma replace_from_inverse (old : bytes) (zc : byte) (s : bytes) (skip : nat) :
  old <> [] -> ~ In zc s ->
  replace [zc] old (replace_from old [zc] skip s) = skipn skip s.
Proof.
  intros Hold. revert skip. induction s as [|c s IH]; intros skip Hz.
  - destruct skip; reflexivity.
  - assert (Hz' : ~ In zc s) by (intros H; apply Hz; now right).
    assert (Hc : c <> zc) by (intros H; apply Hz; now left).
    cbn [replace_from]. destruct skip as [|k]; [|apply (IH k Hz')].
    destruct (startswith (c :: s) old) eqn:E.
    + unfold replace. cbn [app replace_from].
      replace (startswith (zc :: replace_from old [zc] (length old - 1) s) [zc])
        with true
        by (unfold startswith; cbn [length firstn]; now rewrite bytes_eqb_refl).
      cbn [length Nat.sub]. fold (replace [zc] old
        (replace_from old [zc] (length old - 1) s)).
      rewrite (IH _ Hz').
      apply bytes_eqb_eq in E.
      change (skipn 0 (c :: s)) with (c :: s).
      rewrite <- (firstn_skipn (length old) (c :: s)) at 1.
      rewrite E. f_equal.
      destruct old as [|o old']; [contradiction|].
      cbn [length Nat.sub skipn]. now rewrite Nat.sub_0_r.
    + unfold replace. cbn [replace_from].
      replace (startswith (c :: replace_from old [zc] 0 s) [zc]) with false.
      * change (skipn 0 (c :: s)) with (c :: s). f_equal.
        apply (IH 0%nat Hz').
      * unfold startswith. cbn [length firstn]. symmetry.
        rewrite bytes_eqb_single.
        destruct (Byte.eqb c zc) eqn:Ec; [|reflexivity].
        now apply Byte.byte_dec_bl in Ec.
Qed.

Lemma replace_inverse (old : bytes) (zc : byte) (s : bytes) :
  old <> [] -> ~ In zc s -> replace [zc] old (replace old [zc] s) = s.
Proof. intros Hold Hz. apply (replace_from_inverse old zc s 0 Hold Hz). Qed.

(** *** The round trip *)

Lemma Forall_firstn {A : Type} (P : A -> Prop) (n : nat) (s : list A) :
  Forall P s -> Forall P (firstn n s).
Proof.
  intros Hs. revert n. induction Hs as [|c s Hc _ IH]; intros [|n]; cbn;
    constructor; [exact Hc | apply IH].
Qed.

Lemma unpack_uint32_range (s : bytes) :
  Forall (fun V => 0 <= V <= 4294967295) (unpack_uint32 s).
Proof.
  pattern s. apply quads_ind.
  - intros t Ht. destruct t as [|c0 [|c1 [|c2 [|c3 ?]]]];
      try (now constructor). cbn in Ht. lia.
  - intros c0 c1 c2 c3 rest IH. cbn [unpack_uint32].
    constructor; [apply uint32_of_range | exact IH].
Qed.

Section Base85Roundtrip.

Variables (ords : dict byte Z) (chars : list byte).
Hypothesis Hinv : inverts ords chars 85 = true.
Hypothesis Hlen : len chars = 85.
Hypothesis Hnospace : no_whitespace chars.

Lemma b85encode_group_symbols (V : Z) :
  0 <= V <= 4294967295 ->
  Forall (fun c => In c chars) (b85encode_group chars POW_85 V).
Proof.
  intros HV. rewrite b85encode_group_eq.
  destruct (uint32_digits V HV) as [Htop _].
  repeat constructor; apply getitem_In; rewrite Hlen;
    first [exact Htop | apply mod85_range].
Qed.

Lemma b85encode_chars_symbols (raw_bytes : bytes) :
  Forall (fun c => In c chars) (b85encode_chars chars raw_bytes).
Proof.
  unfold b85encode_chars.
  match goal with
  | |- Forall _ (if _ then drop_last _ ?l else ?l) =>
      assert (Hl : Forall (fun c => In c chars) l)
  end.
  { apply Forall_flat_map.
    eapply Forall_impl; [|apply unpack_uint32_range].
    intros V HV. now apply b85encode_group_symbols. }
  destruct (negb _); [|exact Hl]. now apply Forall_firstn.
Qed.

Lemma symbols_no_whitespace (s : bytes) :
  Forall (fun c => In c chars) s -> no_whitespace s.
Proof.
  intros Hs. unfold no_whitespace in *. apply forallb_forall.
  intros c Hc. rewrite Forall_forall in Hs.
  rewrite forallb_forall in Hnospace. apply Hnospace, Hs, Hc.
Qed.

(** With compaction disabled on both sides, decoding inverts encoding. *)
Lemma b85decode_b85encode_plain (raw_bytes : bytes)
    (prefix suffix : option bytes) (cc : bytes) :
  no_whitespace (or_empty prefix) -> no_whitespace (or_empty suffix) ->
  b85decode (b85encode raw_bytes prefix suffix false chars false cc POW_85)
            prefix suffix ords chars true false cc = Ok raw_bytes.
Proof.
  intros Hp Hq. rewrite b85encode_unfold.
  rewrite (b85decode_after_uncompact _ _ _ _ _ _ _ _
             (b85encode_chars chars raw_bytes)).
  - apply (b85decode_text_encode_chars ords chars Hinv).
  - rewrite (b85decode_strip_wrapped prefix suffix _ Hp Hq
               (symbols_no_whitespace _ (b85encode_chars_symbols raw_bytes))).
    reflexivity.
Qed.

(** With compaction enabled on both sides, the decoder returns the input
    whenever its occurrence check lets the compacted text through. *)
Lemma b85decode_b85encode_compact (raw_bytes : bytes)
    (prefix suffix : option bytes) (zc : byte) :
  ~ In zc chars -> is_space zc = false ->
  no_whitespace (or_empty prefix) -> no_whitespace (or_empty suffix) ->
  b85decode (b85encode raw_bytes prefix suffix false chars true [zc] POW_85)
            prefix suffix ords chars true true [zc] =
  (_ <- _check_compact_char_occurrence
          (replace EXCLAMATION_CHUNK [zc] (b85encode_chars chars raw_bytes))
          [zc] 5 ;;
   Ok raw_bytes).
Proof.
  intros Hzc Hzs Hp Hq. rewrite b85encode_unfold.
  set (body := b85encode_chars chars raw_bytes).
  assert (Hbody : Forall (fun c => In c chars) body)
    by apply b85encode_chars_symbols.
  assert (Hws : no_whitespace (replace EXCLAMATION_CHUNK [zc] body)).
  { unfold no_whitespace. apply forallb_forall. apply Forall_forall.
    apply replace_from_Forall.
    - constructor; [now rewrite Hzs | constructor].
    - eapply Forall_impl; [|exact Hbody]. intros c Hc. cbv beta in *.
      unfold no_whitespace in Hnospace. rewrite forallb_forall in Hnospace.
      now apply Hnospace. }
  destruct (_check_compact_char_occurrence
              (replace EXCLAMATION_CHUNK [zc] body) [zc] 5) as [[]|e] eqn:E.
  - rewrite (b85decode_after_uncompact _ _ _ _ _ _ _ _ body).
    + apply (b85decode_text_encode_chars ords chars Hinv).
    + rewrite (b85decode_strip_wrapped prefix suffix _ Hp Hq Hws).
      unfold b85decode_uncompact. rewrite E. cbn [bind]. f_equal.
      apply replace_inverse; [discriminate|].
      intros Hin. rewrite Forall_forall in Hbody. apply Hzc, Hbody, Hin.
  - unfold b85decode.
    rewrite (b85decode_strip_wrapped prefix suffix _ Hp Hq Hws).
    unfold b85decode_uncompact. rewrite E. reflexivity.
Qed.

End Base85Roundtrip.

Lemma RFC1924_CHARS_len : len RFC1924_CHARS = 85.
Proof. reflexivity. Qed.

Lemma ASCII85_CHARS_len : len ASCII85_CHARS = 85.
Proof. reflexivity. Qed.

Lemma RFC1924_CHARS_no_whitespace : no_whitespace RFC1924_CHARS.
Proof. vm_compute. reflexivity. Qed.

Lemma ASCII85_CHARS_no_whitespace : no_whitespace ASCII85_CHARS.
Proof. vm_compute. reflexivity. Qed.

Lemma ASCII85_CHARS_no_z : ~ In "z"%byte ASCII85_CHARS.
Proof.
  intros Hin.
  assert (H : forallb (fun c => negb (Byte.eqb c "z"%byte)) ASCII85_CHARS
              = true) by (vm_compute; reflexivity).
  rewrite forallb_forall in H. specialize (H _ Hin).
  now rewrite byte_eqb_refl in H.
Qed.

(** RFC1924 Base85: decoding inverts encoding for every byte sequence. *)
Theorem rfc1924_b85_roundtrip (raw_bytes : bytes) :
  rfc1924_b85decode (rfc1924_b85encode raw_bytes false) = Ok raw_bytes.
Proof.
  unfold rfc1924_b85decode, rfc1924_b85encode.
  apply b85decode_b85encode_plain.
  - exact RFC1924_ORDS_inverts.
  - exact RFC1924_CHARS_len.
  - exact RFC1924_CHARS_no_whitespace.
  - reflexivity.
  - reflexivity.
Qed.

(** ASCII85 with compaction disabled on both sides: decoding inverts
    encoding for every byte sequence and every prefix and suffix without
    whitespace. *)
Theorem ascii85_roundtrip_uncompacted (raw_bytes : bytes)
    (prefix suffix : option bytes) :
  no_whitespace (or_empty prefix) -> no_whitespace (or_empty suffix) ->
  b85decode (b85encode raw_bytes prefix suffix false ASCII85_CHARS false
                       ZERO_GROUP_CHAR POW_85)
            prefix suffix ASCII85_ORDS ASCII85_CHARS true false
            ZERO_GROUP_CHAR = Ok raw_bytes.
Proof.
  intros Hp Hq. apply b85decode_b85encode_plain.
  - exact ASCII85_ORDS_inverts.
  - exact ASCII85_CHARS_len.
  - exact ASCII85_CHARS_no_whitespace.
  - exact Hp.
  - exact Hq.
Qed.

(** ASCII85 with compaction enabled (the default): for a prefix and a
    suffix without whitespace, the decoder never returns anything but the
    input for the encoder's text; when it does not, it has raised
    [ValueError] in its occurrence check. *)
Theorem ascii85_roundtrip_or_rejected (raw_bytes : bytes)
    (prefix suffix : option bytes) :
  no_whitespace (or_empty prefix) -> no_whitespace (or_empty suffix) ->
  ascii85_decode (ascii85_encode raw_bytes prefix suffix) prefix suffix
    = Ok raw_bytes \/
  ascii85_decode (ascii85_encode raw_bytes prefix suffix) prefix suffix
    = Raise ValueError.
Proof.
  intros Hp Hq. unfold ascii85_decode, ascii85_encode.
  change ZERO_GROUP_CHAR with ["z"%byte].
  rewrite (b85decode_b85encode_compact ASCII85_ORDS ASCII85_CHARS
             ASCII85_ORDS_inverts ASCII85_CHARS_len
             ASCII85_CHARS_no_whitespace raw_bytes prefix suffix "z"%byte
             ASCII85_CHARS_no_z eq_refl Hp Hq).
  unfold _check_compact_char_occurrence.
  destruct (_check_compact_loop_result "z"%byte 0
              (replace EXCLAMATION_CHUNK ["z"%byte]
                 (b85encode_chars ASCII85_CHARS raw_bytes))) as [E|E];
    rewrite E; [now left | now right].
Qed.

(** C1 -- the round trip fails in the default configuration: the encoding
    of the eight bytes [00 09 5e ed 00 00 00 01] has its compaction symbol
    at index 2, standing for the last three symbols of the first group and
    the first two of the second, and [b85decode] raises [ValueError] for
    it.  It also fails for a prefix that holds whitespace: the decoder
    removes whitespace before it looks for the prefix. *)
Theorem ascii85_roundtrip_broken :
  ascii85_encode [x00; x09; x5e; xed; x00; x00; x00; x01] None None
    = ["!"%byte; x22; "z"%byte; "!"%byte; "!"%byte; x22] /\
  ascii85_decode
    (ascii85_encode [x00; x09; x5e; xed; x00; x00; x00; x01] None None)
    None None = Raise ValueError /\
  ascii85_decode (ascii85_encode [] (Some (b "a b")) None)
                 (Some (b "a b")) None = Ok [xc9].
Proof.
  repeat split; vm_compute; reflexivity.
Qed.

(** * Further properties of the codecs *)

(** ** The Base85 block codec *)

Lemma ascii85_roundtrip_uncompacted_witness :
  b85decode (b85encode (b "hello") (Some ASCII85_PREFIX)
                       (Some ASCII85_SUFFIX) false ASCII85_CHARS false
                       ZERO_GROUP_CHAR POW_85)
            (Some ASCII85_PREFIX) (Some ASCII85_SUFFIX) ASCII85_ORDS
            ASCII85_CHARS true false ZERO_GROUP_CHAR = Ok (b "hello").
Proof.
  apply (ascii85_roundtrip_uncompacted (b "hello") (Some ASCII85_PREFIX)
           (Some ASCII85_SUFFIX)); reflexivity.
Defined.

Lemma ascii85_roundtrip_or_rejected_witness :
  ascii85_decode
    (ascii85_encode (b "hello") (Some ASCII85_PREFIX) (Some ASCII85_SUFFIX))
    (Some ASCII85_PREFIX) (Some ASCII85_SUFFIX) = Ok (b "hello") \/
  ascii85_decode
    (ascii85_encode (b "hello") (Some ASCII85_PREFIX) (Some ASCII85_SUFFIX))
    (Some ASCII85_PREFIX) (Some ASCII85_SUFFIX) = Raise ValueError.
Proof.
  apply (ascii85_roundtrip_or_rejected (b "hello") (Some ASCII85_PREFIX)
           (Some ASCII85_SUFFIX)); reflexivity.
Defined.

(** [b85decode] looks at its text only through [strip_whitespace]: two
    texts that differ in whitespace alone, wherever it stands (inside the
    prefix, inside a group), are decoded alike. *)
Theorem b85decode_ignores_whitespace (encoded encoded' : bytes)
    (prefix suffix : option bytes) (ords : dict byte Z) (chars : list byte)
    (unc : bool) (cc : bytes) :
  strip_whitespace encoded = strip_whitespace encoded' ->
  b85decode encoded prefix suffix ords chars true unc cc =
  b85decode encoded' prefix suffix ords chars true unc cc.
Proof.
  intros H. unfold b85decode, b85decode_strip. now rewrite H.
Qed.

Lemma b85decode_ignores_whitespace_witness :
  ascii85_decode ([x0a] ++ b "< ~ 87c URD]i" ++ [x09] ++ b ",~ >")
                 (Some ASCII85_PREFIX) (Some ASCII85_SUFFIX) =
  ascii85_decode (b "<~87cURD]i,~>")
                 (Some ASCII85_PREFIX) (Some ASCII85_SUFFIX).
Proof.
  apply (b85decode_ignores_whitespace
           ([x0a] ++ b "< ~ 87c URD]i" ++ [x09] ++ b ",~ >")
           (b "<~87cURD]i,~>")).
  vm_compute. reflexivity.
Defined.

Lemma _check_compact_loop_raise (zero_char : bytes) (chunk_size counter : Z)
    (s : bytes) (e : exn) :
  _check_compact_loop zero_char chunk_size counter s = Raise e ->
  e = ValueError.
Proof.
  revert counter. induction s as [|x rest IH]; intros counter; cbn.
  - discriminate.
  - destruct (bytes_eqb [x] zero_char); [|apply IH].
    destruct (negb (counter mod chunk_size =? 0)); [congruence | apply IH].
Qed.

Lemma b85decode_raise (encoded : bytes) (prefix suffix : option bytes)
    (ords : dict byte Z) (chars : list byte) (ign unc : bool) (cc : bytes)
    (e : exn) :
  b85decode encoded prefix suffix ords chars ign unc cc = Raise e ->
  (e = ValueError /\ unc = true) \/ e = OverflowError.
Proof.
  unfold b85decode, b85decode_uncompact, _check_compact_char_occurrence.
  set (text := b85decode_strip encoded prefix suffix ign).
  destruct unc.
  - destruct (_check_compact_loop cc 5 0 text) as [[]|e'] eqn:E; cbn [bind].
    + destruct (b85decode_loop ords _) as [us|e'] eqn:El; cbn [bind];
        [discriminate|].
      intros [= <-]. right.
      apply (b85decode_loop_raise _ _ _ (b85decode_pad_mod5 _ _) El).
    + intros [= <-]. left.
      split; [apply (_check_compact_loop_raise _ _ _ _ _ E) | reflexivity].
  - cbn [bind].
    destruct (b85decode_loop ords _) as [us|e'] eqn:El; cbn [bind];
      [discriminate|].
    intros [= <-]. right.
    apply (b85decode_loop_raise _ _ _ (b85decode_pad_mod5 _ _) El).
Qed.

Lemma b85encode_chars_len (chars : list byte) (raw_bytes : bytes) :
  len (b85encode_chars chars raw_bytes) =
  len raw_bytes + (len raw_bytes + 3) / 4.
Proof.
  pattern raw_bytes. apply quads_ind.
  - intros s Hs. destruct s as [|c0 [|c1 [|c2 [|c3 ?]]]];
      try reflexivity. cbn in Hs. lia.
  - intros c0 c1 c2 c3 rest IH. rewrite b85encode_chars_quad, len_app, IH.
    change (len (b85encode_group chars POW_85 (uint32_of c0 c1 c2 c3)))
      with 5.
    unfold len. cbn [length]. zlia.
Qed.

(** Without compaction and without [_padding], [b85encode] writes the
    prefix, then one symbol per input byte and one more per group of four
    bytes begun, all of them symbols of the alphabet, then the suffix. *)
Theorem b85encode_shape (raw_bytes : bytes) (prefix suffix : option bytes)
    (chars : list byte) (cc : bytes) :
  len chars = 85 ->
  exists body,
    b85encode raw_bytes prefix suffix false chars false cc POW_85 =
      or_empty prefix ++ body ++ or_empty suffix /\
    len body = len raw_bytes + (len raw_bytes + 3) / 4 /\
    Forall (fun c => In c chars) body.
Proof.
  intros Hlen. exists (b85encode_chars chars raw_bytes).
  split; [apply b85encode_unfold|].
  split; [apply b85encode_chars_len|].
  apply b85encode_chars_symbols, Hlen.
Qed.

Lemma b85encode_shape_witness :
  exists body,
    b85encode (b "hello") (Some ASCII85_PREFIX) None false RFC1924_CHARS
              false ZERO_GROUP_CHAR POW_85 =
      or_empty (Some ASCII85_PREFIX) ++ body ++ or_empty None /\
    len body = len (b "hello") + (len (b "hello") + 3) / 4 /\
    Forall (fun c => In c RFC1924_CHARS) body.
Proof.
  apply (b85encode_shape (b "hello") (Some ASCII85_PREFIX) None
           RFC1924_CHARS ZERO_GROUP_CHAR).
  reflexivity.
Defined.

Lemma zero_padded_mod4 (raw_bytes : bytes) :
  len (zero_padded raw_bytes) mod 4 = 0.
Proof.
  unfold zero_padded.
  destruct (Z.eqb_spec (len raw_bytes mod 4) 0) as [E|E]; [exact E|].
  rewrite len_app, len_repeat. pose proof (len_nonneg raw_bytes). zlia.
Qed.

Lemma b85encode_padding_unfold (raw_bytes : bytes) (chars : list byte)
    (cc : bytes) :
  b85encode raw_bytes None None true chars false cc POW_85 =
  b85encode_chars chars (zero_padded raw_bytes).
Proof.
  unfold b85encode_chars. rewrite zero_padded_mod4.
  change (0 =? 0) with true. cbn [negb].
  unfold b85encode, zero_padded. cbn [or_empty app negb].
  rewrite andb_false_r, app_nil_r.
  destruct (len raw_bytes mod 4 =? 0); reflexivity.
Qed.

(** With [_padding=True] the encoder keeps the symbols of its padding
    bytes, and the decoder then returns the input followed by those zero
    bytes: the padded text does not tell how long the input was. *)
Theorem b85decode_b85encode_padding (raw_bytes : bytes)
    (ords : dict byte Z) (chars : list byte) (cc : bytes) :
  inverts ords chars 85 = true -> len chars = 85 -> no_whitespace chars ->
  b85decode (b85encode raw_bytes None None true chars false cc POW_85)
            None None ords chars true false cc =
  Ok (zero_padded raw_bytes).
Proof.
  intros Hinv Hlen Hns. rewrite b85encode_padding_unfold.
  rewrite (b85decode_after_uncompact _ _ _ _ _ _ _ _
             (b85encode_chars chars (zero_padded raw_bytes))).
  - apply (b85decode_text_encode_chars ords chars Hinv).
  - pose proof (b85decode_strip_wrapped None None
                  (b85encode_chars chars (zero_padded raw_bytes))
                  eq_refl eq_refl
                  (symbols_no_whitespace chars Hns _
                     (b85encode_chars_symbols chars Hlen _))) as Hs.
    cbn [or_empty app] in Hs. rewrite app_nil_r in Hs. rewrite Hs.
    reflexivity.
Qed.

Lemma b85decode_b85encode_padding_witness :
  b85decode (b85encode (b "hello") None None true RFC1924_CHARS false
                       ZERO_GROUP_CHAR POW_85)
            None None RFC1924_ORDS RFC1924_CHARS true false ZERO_GROUP_CHAR =
  Ok (b "hello" ++ [x00; x00; x00]).
Proof.
  apply (b85decode_b85encode_padding (b "hello") RFC1924_ORDS RFC1924_CHARS
           ZERO_GROUP_CHAR).
  - exact RFC1924_ORDS_inverts.
  - reflexivity.
  - exact RFC1924_CHARS_no_whitespace.
Defined.

(** *** Zero groups *)

Lemma replace_from_skip (old new t s : bytes) :
  replace_from old new (length t) (t ++ s) = replace_from old new 0 s.
Proof.
  induction t as [|c t IH]; [reflexivity|].
  cbn [length app replace_from]. exact IH.
Qed.

Lemma replace_match (old new s : bytes) :
  old <> [] -> replace old new (old ++ s) = new ++ replace old new s.
Proof.
  intros Hold. destruct old as [|o old']; [contradiction|].
  unfold replace. cbn [app replace_from].
  change (o :: old' ++ s) with ((o :: old') ++ s).
  rewrite startswith_app. cbn [length Nat.sub]. rewrite Nat.sub_0_r.
  now rewrite replace_from_skip.
Qed.

Lemma replace_zero_groups (zc : byte) (k : nat) :
  replace EXCLAMATION_CHUNK [zc]
    (concat (repeat EXCLAMATION_CHUNK k)) = repeat zc k.
Proof.
  induction k as [|k IH]; [reflexivity|].
  cbn [repeat concat]. rewrite replace_match by discriminate.
  now rewrite IH.
Qed.

Lemma b85encode_chars_zero_groups (chars : list byte) (k : nat) :
  b85encode_chars chars (concat (repeat [x00; x00; x00; x00] k)) =
  concat (repeat (repeat (getitem x00 chars 0) 5) k).
Proof.
  induction k as [|k IH]; [reflexivity|].
  cbn [repeat concat app]. rewrite b85encode_chars_quad, IH. reflexivity.
Qed.

Lemma _check_compact_zero_groups (zc : byte) (k : nat) :
  _check_compact_char_occurrence (repeat zc k) [zc] 5 = Ok tt.
Proof.
  unfold _check_compact_char_occurrence.
  induction k as [|k IH]; [reflexivity|].
  cbn [repeat _check_compact_loop]. rewrite bytes_eqb_refl. exact IH.
Qed.

(** ASCII85 writes [k] groups of four zero bytes as [k] compaction symbols
    and nothing else, and reads [k] compaction symbols, and nothing else, as
    those [4 * k] zero bytes. *)
Theorem ascii85_zero_groups (k : nat) :
  ascii85_encode (concat (repeat [x00; x00; x00; x00] k)) None None =
    repeat "z"%byte k /\
  ascii85_decode (repeat "z"%byte k) None None =
    Ok (concat (repeat [x00; x00; x00; x00] k)).
Proof.
  assert (Henc : ascii85_encode (concat (repeat [x00; x00; x00; x00] k))
                   None None = repeat "z"%byte k).
  { unfold ascii85_encode. rewrite b85encode_unfold.
    cbn [or_empty app]. rewrite app_nil_r.
    rewrite b85encode_chars_zero_groups.
    change (repeat (getitem x00 ASCII85_CHARS 0) 5) with EXCLAMATION_CHUNK.
    apply replace_zero_groups. }
  split; [exact Henc|].
  rewrite <- Henc at 1. unfold ascii85_decode, ascii85_encode.
  change ZERO_GROUP_CHAR with ["z"%byte].
  rewrite (b85decode_b85encode_compact ASCII85_ORDS ASCII85_CHARS
             ASCII85_ORDS_inverts ASCII85_CHARS_len
             ASCII85_CHARS_no_whitespace _ None None "z"%byte
             ASCII85_CHARS_no_z eq_refl eq_refl eq_refl).
  rewrite b85encode_chars_zero_groups.
  change (repeat (getitem x00 ASCII85_CHARS 0) 5) with EXCLAMATION_CHUNK.
  rewrite replace_zero_groups.
  now rewrite _check_compact_zero_groups.
Qed.

Lemma concat_repeat_repeat {A : Type} (c : A) (n k : nat) :
  concat (repeat (repeat c n) k) = repeat c (k * n).
Proof.
  induction k as [|k IH]; [reflexivity|].
  change (repeat (repeat c n) (S k))
    with (repeat c n :: repeat (repeat c n) k).
  cbn [concat]. rewrite IH, <- repeat_app. reflexivity.
Qed.

(** RFC1924 Base85 has no compaction: [k] groups of four zero bytes are
    written as [5 * k] symbols ['0']. *)
Theorem rfc1924_zero_groups (k : nat) :
  rfc1924_b85encode (concat (repeat [x00; x00; x00; x00] k)) false =
  repeat "0"%byte (k * 5).
Proof.
  unfold rfc1924_b85encode. rewrite b85encode_unfold.
  cbn [or_empty app]. rewrite app_nil_r, b85encode_chars_zero_groups.
  change (getitem x00 RFC1924_CHARS 0) with "0"%byte.
  apply concat_repeat_repeat.
Qed.

(** ** The fixed-width 128-bit codec, naive and unrolled *)

Lemma ipv6_symbols_digits (chars : list byte) (v : Z) :
  ipv6_symbols chars v = map (getitem x00 chars) (ipv6_digits v).
Proof. reflexivity. Qed.

Lemma ipv6_digits_digit (v : Z) :
  0 <= v <= UINT128_MAX -> Forall (digit 85) (ipv6_digits v).
Proof.
  intros Hv. pose proof (uint128_top_digit v Hv) as Htop.
  unfold ipv6_digits, digit.
  repeat (constructor; [first [exact Htop | apply mod85_range]|]).
  constructor.
Qed.

Lemma ipv6_digits_horner (v : Z) :
  0 <= v <= UINT128_MAX -> horner 85 (ipv6_digits v) = v.
Proof.
  intros Hv. unfold horner, ipv6_digits. cbn [fold_left].
  replace (v mod 85) with ((v / 85 ^ 0) mod 85)
    by (now rewrite Z.pow_0_r, Z.div_1_r).
  change (v / 85) with (v / 85 ^ 1).
  assert (H0 : v = v / 85 ^ 0) by (now rewrite Z.pow_0_r, Z.div_1_r).
  pose proof (div_pow85_step v 0 1 ltac:(lia) eq_refl).
  pose proof (div_pow85_step v 1 2 ltac:(lia) eq_refl).
  pose proof (div_pow85_step v 2 3 ltac:(lia) eq_refl).
  pose proof (div_pow85_step v 3 4 ltac:(lia) eq_refl).
  pose proof (div_pow85_step v 4 5 ltac:(lia) eq_refl).
  pose proof (div_pow85_step v 5 6 ltac:(lia) eq_refl).
  pose proof (div_pow85_step v 6 7 ltac:(lia) eq_refl).
  pose proof (div_pow85_step v 7 8 ltac:(lia) eq_refl).
  pose proof (div_pow85_step v 8 9 ltac:(lia) eq_refl).
  pose proof (div_pow85_step v 9 10 ltac:(lia) eq_refl).
  pose proof (div_pow85_step v 10 11 ltac:(lia) eq_refl).
  pose proof (div_pow85_step v 11 12 ltac:(lia) eq_refl).
  pose proof (div_pow85_step v 12 13 ltac:(lia) eq_refl).
  pose proof (div_pow85_step v 13 14 ltac:(lia) eq_refl).
  pose proof (div_pow85_step v 14 15 ltac:(lia) eq_refl).
  pose proof (div_pow85_step v 15 16 ltac:(lia) eq_refl).
  pose proof (div_pow85_step v 16 17 ltac:(lia) eq_refl).
  pose proof (div_pow85_step v 17 18 ltac:(lia) eq_refl).
  pose proof (div_pow85_step v 18 19 ltac:(lia) eq_refl).
  clear Hv. lia.
Qed.

Lemma ipv6_naive_loop_valid (ords : dict byte Z) (s : bytes) (acc : Z) :
  (forall c, In c s -> dict_lookup ords c <> None) ->
  ipv6_naive_loop ords s acc =
  Ok (fold_left (fun a d => a * 85 + d) (map (ordinal ords) s) acc).
Proof.
  revert acc. induction s as [|c s IH]; intros acc Hs; [reflexivity|].
  cbn [ipv6_naive_loop map fold_left]. unfold dict_get, ordinal at 2.
  destruct (dict_lookup ords c) as [d|] eqn:E.
  - cbn [bind]. apply IH. intros c' Hc'. apply Hs. now right.
  - exfalso. apply (Hs c); [now left | exact E].
Qed.

Lemma ipv6_naive_loop_invalid (ords : dict byte Z) (s : bytes) (acc : Z)
    (c : byte) :
  In c s -> dict_lookup ords c = None ->
  ipv6_naive_loop ords s acc = Raise KeyError.
Proof.
  intros Hin Hc. revert acc.
  induction s as [|c' s IH]; intros acc; [contradiction|].
  cbn [ipv6_naive_loop]. destruct Hin as [-> | Hin].
  - now rewrite (dict_get_None _ _ Hc).
  - destruct (dict_get ords c') as [d|e] eqn:E; cbn [bind].
    + now apply IH.
    + apply dict_get_raise in E as [-> _]. reflexivity.
Qed.

Lemma ipv6_b85decode_naive_spec_cases (encoded : bytes) (ords : dict byte Z) :
  let text := strip_whitespace encoded in
  let value := horner 85 (map (ordinal ords) text) in
  (len text <> 20 -> ipv6_b85decode_naive encoded ords = Raise ValueError) /\
  (len text = 20 ->
   (exists c, In c text /\ dict_lookup ords c = None) ->
   ipv6_b85decode_naive encoded ords = Raise OverflowError) /\
  (len text = 20 ->
   (forall c, In c text -> dict_lookup ords c <> None) ->
   ipv6_b85decode_naive encoded ords =
   if value >? UINT128_MAX then Raise OverflowError else Ok value).
Proof.
  intros text value. unfold ipv6_b85decode_naive. fold text.
  split; [|split].
  - intros Hlen. destruct (Z.eqb_spec (len text) 20); [contradiction|].
    reflexivity.
  - intros Hlen [c [Hin Hc]]. rewrite Hlen. cbn [Z.eqb Pos.eqb negb].
    now rewrite (ipv6_naive_loop_invalid ords text 0 c Hin Hc).
  - intros Hlen Hvalid. rewrite Hlen. cbn [Z.eqb Pos.eqb negb].
    rewrite (ipv6_naive_loop_valid ords text 0 Hvalid). reflexivity.
Qed.

(** [ipv6_b85decode_naive] by cases on the text left after whitespace
    removal: [ValueError] unless it has exactly 20 symbols; with 20 symbols,
    [OverflowError] when one of them is outside the alphabet or when the
    base-85 value exceeds [UINT128_MAX]; that value otherwise. *)
Theorem ipv6_b85decode_naive_spec (encoded : bytes) (ords : dict byte Z) :
  let text := strip_whitespace encoded in
  let value := horner 85 (map (ordinal ords) text) in
  (len text <> 20 -> ipv6_b85decode_naive encoded ords = Raise ValueError) /\
  (len text = 20 ->
   (exists c, In c text /\ dict_lookup ords c = None) ->
   ipv6_b85decode_naive encoded ords = Raise OverflowError) /\
  (len text = 20 ->
   (forall c, In c text -> dict_lookup ords c <> None) ->
   ipv6_b85decode_naive encoded ords =
   if value >? UINT128_MAX then Raise OverflowError else Ok value).
Proof. exact (ipv6_b85decode_naive_spec_cases encoded ords). Qed.

Lemma ipv6_b85decode_naive_spec_witness :
  ipv6_b85decode_naive (b "0000 0000") RFC1924_ORDS = Raise ValueError /\
  ipv6_b85decode_naive (b "0000000000 000000000,") RFC1924_ORDS
    = Raise OverflowError /\
  ipv6_b85decode_naive (b "0000000000 0000000011") RFC1924_ORDS = Ok 86.
Proof.
  split; [|split].
  - apply (proj1 (ipv6_b85decode_naive_spec (b "0000 0000") RFC1924_ORDS)).
    vm_compute. discriminate.
  - apply (proj1 (proj2 (ipv6_b85decode_naive_spec
                           (b "0000000000 000000000,") RFC1924_ORDS)));
      [reflexivity|].
    exists ","%byte. split; vm_compute; [tauto | reflexivity].
  - apply (proj2 (proj2 (ipv6_b85decode_naive_spec
                           (b "0000000000 0000000011") RFC1924_ORDS)));
      [reflexivity|].
    intros c Hc. vm_compute in Hc.
    repeat (destruct Hc as [<- | Hc]; [vm_compute; discriminate|]).
    contradiction.
Defined.

Lemma map_ordinal_symbols (ords : dict byte Z) (chars : list byte)
    (ds : list Z) :
  inverts ords chars 85 = true -> Forall (digit 85) ds ->
  map (ordinal ords) (map (getitem x00 chars) ds) = ds /\
  forall c, In c (map (getitem x00 chars) ds) -> dict_lookup ords c <> None.
Proof.
  intros Hinv Hds. induction Hds as [|d ds Hd _ [IH1 IH2]].
  - split; [reflexivity | intros c []].
  - pose proof (inverts_get ords chars 85 d Hinv Hd) as Hget.
    unfold dict_get in Hget.
    destruct (dict_lookup ords (getitem x00 chars d)) as [d'|] eqn:E;
      [|discriminate].
    injection Hget as ->. split.
    + cbn [map]. unfold ordinal at 1. now rewrite E, IH1.
    + intros c [<- | Hc]; [congruence | now apply IH2].
Qed.

(** The naive decoder inverts the unrolled encoder on [0, 2^128 - 1]. *)
Theorem ipv6_b85decode_naive_b85encode (v : Z) :
  0 <= v <= UINT128_MAX ->
  exists encoded,
    ipv6_b85encode v RFC1924_CHARS POW_85 = Ok encoded /\
    ipv6_b85decode_naive encoded RFC1924_ORDS = Ok v.
Proof.
  intros Hv. exists (ipv6_symbols RFC1924_CHARS v).
  split; [now apply ipv6_b85encode_in_range|].
  destruct (map_ordinal_symbols RFC1924_ORDS RFC1924_CHARS (ipv6_digits v)
              RFC1924_ORDS_inverts (ipv6_digits_digit v Hv)) as [Hmap Hvalid].
  rewrite <- ipv6_symbols_digits in Hmap, Hvalid.
  assert (Hstrip : strip_whitespace (ipv6_symbols RFC1924_CHARS v) =
                   ipv6_symbols RFC1924_CHARS v).
  { apply strip_whitespace_id.
    apply (symbols_no_whitespace RFC1924_CHARS RFC1924_CHARS_no_whitespace).
    rewrite ipv6_symbols_digits. apply Forall_map.
    eapply Forall_impl; [|apply (ipv6_digits_digit v Hv)].
    intros d Hd. apply getitem_In. exact Hd. }
  destruct (ipv6_b85decode_naive_spec_cases (ipv6_symbols RFC1924_CHARS v)
              RFC1924_ORDS) as [_ [_ H]].
  rewrite Hstrip in H. rewrite (H eq_refl Hvalid), Hmap.
  rewrite (ipv6_digits_horner v Hv).
  destruct (Z.gtb_spec v UINT128_MAX); [lia | reflexivity].
Qed.

Lemma ipv6_b85decode_naive_b85encode_witness :
  exists encoded,
    ipv6_b85encode 2011 RFC1924_CHARS POW_85 = Ok encoded /\
    ipv6_b85decode_naive encoded RFC1924_ORDS = Ok 2011.
Proof.
  apply (ipv6_b85decode_naive_b85encode 2011). rewrite UINT128_MAX_eq. lia.
Defined.

Lemma RFC1924_BYTES_chars (d : Z) :
  chr (getitem 0 RFC1924_BYTES d) = getitem x00 RFC1924_CHARS d.
Proof.
  unfold getitem, RFC1924_BYTES.
  change 0 with (ord x00) at 1. rewrite map_nth. apply chr_ord.
Qed.

Lemma div85_pow (v : Z) (k : Z) :
  0 <= k -> v / 85 ^ k / 85 = v / 85 ^ (k + 1).
Proof.
  intros Hk. rewrite Z.pow_add_r, Z.pow_1_r by lia.
  apply Z.div_div; lia.
Qed.

(** On every input the naive encoder does what the unrolled one does: the
    same exception or the same text. *)
Theorem ipv6_b85encode_naive_agrees (uint128 : Z) :
  ipv6_b85encode_naive uint128 RFC1924_BYTES =
  ipv6_b85encode uint128 RFC1924_CHARS POW_85.
Proof.
  destruct (Z.ltb_spec uint128 0) as [Hneg|Hpos].
  { unfold ipv6_b85encode_naive, ipv6_b85encode.
    destruct (Z.ltb_spec uint128 0); [reflexivity | lia]. }
  destruct (Z.gtb_spec uint128 UINT128_MAX) as [Hbig|Hle].
  { unfold ipv6_b85encode_naive, ipv6_b85encode.
    destruct (Z.ltb_spec uint128 0); [lia|].
    destruct (Z.gtb_spec uint128 UINT128_MAX); [reflexivity | lia]. }
  rewrite ipv6_b85encode_in_range by lia.
  unfold ipv6_b85encode_naive.
  destruct (Z.ltb_spec uint128 0); [lia|].
  destruct (Z.gtb_spec uint128 UINT128_MAX); [lia|].
  f_equal.
  cbv [range seq map length rev app ipv6_encode_naive_loop nth setitem
       Z.to_nat Z.of_nat Pos.of_succ_nat Pos.succ Pos.to_nat Pos.iter_op
       Nat.add].
  rewrite !RFC1924_BYTES_chars.
  change (uint128 / 85) with (uint128 / 85 ^ 1).
  repeat (rewrite div85_pow by lia;
          match goal with
          | |- context [85 ^ (?k + 1)] =>
              let k' := eval cbv in (k + 1) in
              change (85 ^ (k + 1)) with (85 ^ k')
          end).
  rewrite (Z.mod_small (uint128 / 85 ^ 19))
    by (apply uint128_top_digit; lia).
  reflexivity.
Qed.

Lemma filter_length_id {A : Type} (f : A -> bool) (s : list A) :
  length (filter f s) = length s -> filter f s = s.
Proof.
  induction s as [|c s IH]; [reflexivity|].
  cbn [filter]. destruct (f c); cbn [length]; intros H.
  - f_equal. apply IH. lia.
  - pose proof (filter_length_le f s). lia.
Qed.

(** On a text of 20 bytes the unrolled decoder is the plain loop. *)
Lemma ipv6_b85decode_unrolled (encoded : bytes) (ords : dict byte Z) :
  length encoded = 20%nat ->
  ipv6_b85decode encoded ords = ipv6_naive_loop ords encoded 0.
Proof.
  intros Hlen.
  do 20 (destruct encoded as [|? encoded]; [discriminate|]).
  destruct encoded; [|discriminate].
  unfold ipv6_b85decode. change (len _) with 20.
  change (negb (20 =? 20)) with false. cbv iota.
  unfold ipv6_fold5.
  repeat match goal with
         | |- context [getitem x00 ?l ?i] =>
             let c := eval cbv in (getitem x00 l i) in
             change (getitem x00 l i) with c
         end.
  cbn [ipv6_naive_loop].
  repeat match goal with
         | |- context [dict_get ords ?c] =>
             destruct (dict_get ords c); cbn [bind]; [|reflexivity]
         end.
  reflexivity.
Qed.

(** Whatever 20-byte text the naive decoder accepts, the unrolled decoder
    decodes to the same value. *)
Theorem ipv6_b85decode_agrees (encoded : bytes) (ords : dict byte Z)
    (v : Z) :
  length encoded = 20%nat ->
  ipv6_b85decode_naive encoded ords = Ok v ->
  ipv6_b85decode encoded ords = Ok v.
Proof.
  intros Hlen. rewrite (ipv6_b85decode_unrolled encoded ords Hlen).
  unfold ipv6_b85decode_naive.
  destruct (Z.eqb_spec (len (strip_whitespace encoded)) 20) as [E|E];
    cbn [negb]; [|discriminate].
  assert (Hs : strip_whitespace encoded = encoded).
  { apply filter_length_id. unfold len in E.
    unfold strip_whitespace in E. lia. }
  rewrite Hs.
  destruct (ipv6_naive_loop ords encoded 0) as [u|e];
    unfold except_KeyError, bind.
  - destruct (u >? UINT128_MAX); [discriminate | tauto].
  - destruct e; discriminate.
Qed.

Lemma ipv6_b85decode_agrees_witness :
  ipv6_b85decode (b "4)+k&C#VzJ4br>0wv%Yp") RFC1924_ORDS =
  Ok 21932261930451111902915077091070067066.
Proof.
  apply (ipv6_b85decode_agrees (b "4)+k&C#VzJ4br>0wv%Yp") RFC1924_ORDS);
    vm_compute; reflexivity.
Defined.

(** Two lists of as many digits and of the same value are the same list. *)
Lemma horner_inj_length (base : Z) (ds1 ds2 : list Z) :
  2 <= base ->
  Forall (digit base) ds1 -> Forall (digit base) ds2 ->
  length ds1 = length ds2 ->
  horner base ds1 = horner base ds2 -> ds1 = ds2.
Proof.
  intros Hbase. revert ds2.
  induction ds1 as [|d1 ds1 IH] using rev_ind; intros ds2 H1 H2 Hlen Hv.
  - destruct ds2; [reflexivity | discriminate].
  - destruct ds2 as [|d2 ds2 _] using rev_ind.
    + rewrite length_app in Hlen. cbn in Hlen. lia.
    + rewrite !horner_app in Hv. rewrite !length_app in Hlen.
      apply Forall_app in H1 as [H1 Hd1], H2 as [H2 Hd2].
      apply Forall_inv in Hd1, Hd2. unfold digit in Hd1, Hd2.
      assert (horner base ds1 = horner base ds2 /\ d1 = d2) as [Hv' ->].
      { split.
        - rewrite (Z.div_unique_pos (horner base ds1 * base + d1) base
                     (horner base ds1) d1) by lia.
          rewrite Hv. symmetry. apply Z.div_unique_pos with d2; lia.
        - rewrite (Z.mod_unique_pos (horner base ds1 * base + d1) base
                     (horner base ds1) d1) by lia.
          rewrite Hv. symmetry.
          apply Z.mod_unique_pos with (horner base ds2); lia. }
      f_equal. apply IH; try assumption. cbn in Hlen. lia.
Qed.

Ltac table_by_cases :=
  let c := fresh "c" in
  let d := fresh "d" in
  let H := fresh "H" in
  intros c d H; destruct c; vm_compute in H;
  first [ discriminate H
        | injection H as <-; split; [lia | reflexivity] ].

Lemma RFC1924_ORDS_indexes : indexes RFC1924_ORDS RFC1924_CHARS 85.
Proof. table_by_cases. Qed.

Lemma ASCII85_ORDS_indexes : indexes ASCII85_ORDS ASCII85_CHARS 85.
Proof. table_by_cases. Qed.

Lemma ASCII58_ORDS_indexes : indexes ASCII58_ORDS ASCII58_CHARSET 58.
Proof. table_by_cases. Qed.

Lemma ASCII62_ORDS_indexes : indexes ASCII62_ORDS ASCII62_CHARSET 62.
Proof. table_by_cases. Qed.

Lemma map_symbol_ordinal (ords : dict byte Z) (chars : list byte) (n : Z)
    (s : bytes) :
  indexes ords chars n ->
  (forall c, In c s -> dict_lookup ords c <> None) ->
  map (getitem x00 chars) (map (ordinal ords) s) = s /\
  Forall (digit n) (map (ordinal ords) s).
Proof.
  intros Hidx. induction s as [|c s IH]; intros Hs.
  - split; [reflexivity | constructor].
  - destruct IH as [IH1 IH2]; [intros c' Hc'; apply Hs; now right|].
    cbn [map]. unfold ordinal at 1 3.
    destruct (dict_lookup ords c) as [d|] eqn:E.
    + destruct (Hidx c d E) as [Hd Hc]. split.
      * now rewrite Hc, IH1.
      * constructor; assumption.
    + exfalso. apply (Hs c); [now left | exact E].
Qed.

Lemma ipv6_naive_loop_Ok (ords : dict byte Z) (s : bytes) (acc u : Z) :
  ipv6_naive_loop ords s acc = Ok u ->
  forall c, In c s -> dict_lookup ords c <> None.
Proof.
  intros Hloop c Hin Hc.
  now rewrite (ipv6_naive_loop_invalid ords s acc c Hin Hc) in Hloop.
Qed.

(** Decoding loses nothing but whitespace: the text the naive decoder
    accepts is, once its whitespace is removed, the text the encoder writes
    for the decoded value. *)
Theorem ipv6_b85encode_b85decode_naive (encoded : bytes) (v : Z) :
  ipv6_b85decode_naive encoded RFC1924_ORDS = Ok v ->
  ipv6_b85encode v RFC1924_CHARS POW_85 = Ok (strip_whitespace encoded).
Proof.
  unfold ipv6_b85decode_naive.
  set (text := strip_whitespace encoded).
  destruct (Z.eqb_spec (len text) 20) as [Hlen|]; cbn [negb];
    [|discriminate].
  destruct (ipv6_naive_loop RFC1924_ORDS text 0) as [u|e] eqn:Hloop;
    unfold except_KeyError, bind; [|destruct e; discriminate].
  destruct (Z.gtb_spec u UINT128_MAX) as [|Hle]; [discriminate|].
  intros [= <-].
  pose proof (ipv6_naive_loop_Ok _ _ _ _ Hloop) as Hvalid.
  rewrite (ipv6_naive_loop_valid _ _ _ Hvalid) in Hloop.
  injection Hloop as Hu. fold (horner 85 (map (ordinal RFC1924_ORDS) text)) in Hu.
  destruct (map_symbol_ordinal RFC1924_ORDS RFC1924_CHARS 85 text
              RFC1924_ORDS_indexes Hvalid) as [Hmap Hds].
  assert (Hu0 : 0 <= u).
  { rewrite <- Hu. apply horner_nonneg; [lia | exact Hds]. }
  rewrite ipv6_b85encode_in_range by lia.
  rewrite ipv6_symbols_digits. f_equal.
  etransitivity; [|exact Hmap]. f_equal.
  apply (horner_inj_length 85); try lia.
  - apply ipv6_digits_digit. lia.
  - exact Hds.
  - rewrite length_map. unfold len in Hlen. cbn [ipv6_digits length]. lia.
  - rewrite ipv6_digits_horner by lia. now rewrite Hu.
Qed.

Lemma ipv6_b85encode_b85decode_naive_witness :
  ipv6_b85encode 21932261930451111902915077091070067066 RFC1924_CHARS POW_85
    = Ok (b "4)+k&C#VzJ4br>0wv%Yp").
Proof.
  apply (ipv6_b85encode_b85decode_naive
           (b "4)+k&C#VzJ 4br>0wv%Yp" ++ [x0a])).
  vm_compute. reflexivity.
Defined.

(** ** The naive Base58 and Base62 codecs, further *)

Lemma decode_naive_loop_raise (base : Z) (lookup : dict byte Z)
    (items : list (Z * byte)) (number : Z) (e : exn) :
  decode_naive_loop base lookup items number = Raise e ->
  e = KeyError /\
  exists x, In x (map snd items) /\ dict_lookup lookup x = None.
Proof.
  revert number. induction items as [|[i x] items IH]; intros number; cbn.
  - discriminate.
  - destruct (dict_get lookup x) as [o|e'] eqn:E; cbn [bind].
    + intros H. destruct (IH _ H) as [He [x' [Hin Hx']]].
      split; [exact He|]. exists x'. split; [now right | exact Hx'].
    + intros [= <-]. apply dict_get_raise in E as [-> E].
      split; [reflexivity|]. exists x. split; [now left | exact E].
Qed.

Lemma decode_naive_loop_invalid (base : Z) (lookup : dict byte Z)
    (items : list (Z * byte)) (number : Z) (x : byte) :
  In x (map snd items) -> dict_lookup lookup x = None ->
  decode_naive_loop base lookup items number = Raise KeyError.
Proof.
  intros Hin Hx. revert number.
  induction items as [|[i x'] items IH]; intros number; [contradiction|].
  cbn [decode_naive_loop]. destruct Hin as [Heq | Hin].
  - cbn in Heq. subst x'. now rewrite (dict_get_None _ _ Hx).
  - destruct (dict_get lookup x') as [o|e] eqn:E; cbn [bind].
    + now apply IH.
    + apply dict_get_raise in E as [-> _]. reflexivity.
Qed.

Lemma map_snd_combine_same {A B : Type} (l : list A) (s : list B) :
  length l = length s -> map snd (combine l s) = s.
Proof.
  revert l. induction s as [|c s IH]; intros [|i l] Hlen;
    try discriminate; [reflexivity|].
  cbn. f_equal. apply IH. cbn in Hlen. lia.
Qed.

Lemma map_snd_enumerate {A : Type} (s : list A) : map snd (enumerate s) = s.
Proof.
  unfold enumerate, range. apply map_snd_combine_same.
  now rewrite length_map, length_seq.
Qed.

Lemma decode_naive_raise (base : Z) (encoded : bytes) (charset : list byte)
    (lookup : dict byte Z) (e : exn) :
  decode_naive base encoded charset lookup = Raise e <->
  e = KeyError /\
  exists c, In c (strip_whitespace encoded) /\ dict_lookup lookup c = None.
Proof.
  unfold decode_naive. split.
  - destruct (decode_naive_loop base lookup _ 0) as [n|e'] eqn:E;
      cbn [bind]; [discriminate|].
    intros [= <-]. apply decode_naive_loop_raise in E as [He [x [Hin Hx]]].
    split; [exact He|]. exists x. split; [|exact Hx].
    rewrite map_snd_enumerate in Hin. now apply in_rev.
  - intros [-> [c [Hin Hc]]].
    rewrite (decode_naive_loop_invalid base lookup _ 0 c); [reflexivity| |exact Hc].
    rewrite map_snd_enumerate. now apply in_rev in Hin.
Qed.

(** The naive decoders look at their text only through
    [strip_whitespace]. *)
Theorem naive_decoders_ignore_whitespace (encoded encoded' : bytes) :
  strip_whitespace encoded = strip_whitespace encoded' ->
  b58decode_naive encoded ASCII58_CHARSET ASCII58_ORDS =
    b58decode_naive encoded' ASCII58_CHARSET ASCII58_ORDS /\
  b62decode_naive encoded ASCII62_CHARSET ASCII62_ORDS =
    b62decode_naive encoded' ASCII62_CHARSET ASCII62_ORDS.
Proof.
  intros H. unfold b58decode_naive, b62decode_naive, decode_naive.
  now rewrite H.
Qed.

Lemma naive_decoders_ignore_whitespace_witness :
  b58decode_naive (b " 1 9T b" ++ [x0a]) ASCII58_CHARSET ASCII58_ORDS =
    b58decode_naive (b "19Tb") ASCII58_CHARSET ASCII58_ORDS /\
  b62decode_naive (b " 1 9T b" ++ [x0a]) ASCII62_CHARSET ASCII62_ORDS =
    b62decode_naive (b "19Tb") ASCII62_CHARSET ASCII62_ORDS.
Proof.
  apply (naive_decoders_ignore_whitespace (b " 1 9T b" ++ [x0a]) (b "19Tb")).
  vm_compute. reflexivity.
Defined.

Lemma bytes_to_uint_zeros (k : nat) : bytes_to_uint (repeat x00 k) = 0.
Proof.
  rewrite bytes_to_uint_horner, map_repeat. change (ord x00) with 0.
  rewrite <- (app_nil_r (repeat 0 k)). now rewrite horner_zeros.
Qed.

Lemma leading_all {A : Type} (p : A -> bool) (z : A) (k : nat) :
  p z = true -> leading p (repeat z k) = k.
Proof.
  intros Hz. rewrite <- (app_nil_r (repeat z k)).
  rewrite leading_repeat by exact Hz. cbn. lia.
Qed.

Lemma encode_naive_zeros (base : Z) (charset : list byte) (k : nat) :
  encode_naive base (repeat x00 k) charset true ZERO_BYTE =
  repeat (getitem x00 charset 0) k.
Proof.
  unfold encode_naive. rewrite bytes_to_uint_zeros.
  change (encode_naive_loop base charset (iterations 0) 0 []) with (@nil byte).
  change (getitem x00 ZERO_BYTE 0) with x00.
  rewrite leading_all by reflexivity. apply app_nil_r.
Qed.

(** A string of [k] zero bytes is written as [k] times the first symbol
    of the alphabet and nothing else, and such a text is read back as those
    [k] zero bytes: no zero byte appears or disappears. *)
Theorem naive_zero_bytes (k : nat) :
  b58encode_naive (repeat x00 k) ASCII58_CHARSET true ZERO_BYTE =
    repeat "1"%byte k /\
  b58decode_naive (repeat "1"%byte k) ASCII58_CHARSET ASCII58_ORDS =
    Ok (repeat x00 k) /\
  b62encode_naive (repeat x00 k) ASCII62_CHARSET true ZERO_BYTE =
    repeat "0"%byte k /\
  b62decode_naive (repeat "0"%byte k) ASCII62_CHARSET ASCII62_ORDS =
    Ok (repeat x00 k).
Proof.
  assert (H58 : b58encode_naive (repeat x00 k) ASCII58_CHARSET true ZERO_BYTE
                = repeat "1"%byte k) by apply encode_naive_zeros.
  assert (H62 : b62encode_naive (repeat x00 k) ASCII62_CHARSET true ZERO_BYTE
                = repeat "0"%byte k) by apply encode_naive_zeros.
  repeat split; try assumption.
  - rewrite <- H58. apply decode_encode_naive.
    + lia.
    + reflexivity.
    + exact ASCII58_ORDS_inverts.
    + vm_compute. reflexivity.
  - rewrite <- H62. apply decode_encode_naive.
    + lia.
    + reflexivity.
    + exact ASCII62_ORDS_inverts.
    + vm_compute. reflexivity.
Qed.

Lemma leading_decompose (z : byte) (s : bytes) :
  exists rest,
    s = repeat z (leading (fun w => Byte.eqb w z) s) ++ rest /\
    leading (fun w => Byte.eqb w z) rest = 0%nat.
Proof.
  induction s as [|c s [rest [Hs Hz]]].
  - exists []. split; reflexivity.
  - cbn [leading]. destruct (Byte.eqb c z) eqn:Ec.
    + apply Byte.byte_dec_bl in Ec. subst c. exists rest.
      split; [|exact Hz]. cbn [repeat app]. now rewrite <- Hs.
    + exists (c :: s). split; [reflexivity|]. cbn [leading]. now rewrite Ec.
Qed.

Lemma uint_to_bytes_digits (number : Z) :
  0 < number ->
  exists ds,
    uint_to_bytes number = map chr ds /\ Forall (digit 256) ds /\
    no_leading_zero ds /\ horner 256 ds = number.
Proof.
  intros Hn. unfold uint_to_bytes.
  destruct (Z.eqb_spec number 0); [lia|].
  change (@nil byte) with (map chr []). rewrite uint_to_bytes_loop_digits.
  destruct (digits_loop_spec 256 ltac:(lia) (iterations number) number []
              (iterations_enough number ltac:(lia)))
    as [ds [-> [Hds [Hz Hv]]]].
  rewrite app_nil_r. now exists ds.
Qed.

Lemma map_ord_chr (ds : list Z) :
  Forall (digit 256) ds -> map ord (map chr ds) = ds.
Proof.
  induction 1 as [|d ds Hd _ IH]; [reflexivity|].
  cbn [map]. now rewrite ord_chr, IH.
Qed.

Section NaiveCanonical.

Variables (base : Z) (charset : list byte) (lookup : dict byte Z).
Hypothesis Hbase : 2 <= base.
Hypothesis Hinv : inverts lookup charset (Z.to_nat base) = true.
Hypothesis Hidx : indexes lookup charset base.

(** What the encoder writes for the bytes the decoder returns is the text
    the decoder was given, less its whitespace. *)
Lemma encode_decode_naive (encoded raw_bytes : bytes) :
  decode_naive base encoded charset lookup = Ok raw_bytes ->
  encode_naive base raw_bytes charset true ZERO_BYTE =
  strip_whitespace encoded.
Proof.
  unfold decode_naive. set (text := strip_whitespace encoded).
  destruct (decode_naive_loop base lookup (enumerate (rev text)) 0)
    as [n|e] eqn:Hloop; cbn [bind]; [|discriminate].
  intros [= <-].
  assert (Hvalid : forall c, In c text -> dict_lookup lookup c <> None).
  { intros c Hin Hc.
    rewrite (decode_naive_loop_invalid base lookup _ 0 c) in Hloop;
      [discriminate| |exact Hc].
    rewrite map_snd_enumerate. now apply in_rev in Hin. }
  destruct (map_symbol_ordinal lookup charset base text Hidx Hvalid)
    as [Hmap Hds].
  set (ds := map (ordinal lookup) text) in *.
  assert (Hn : horner base ds = n).
  { pose proof (decode_naive_number base charset lookup Hbase Hinv ds Hds)
      as Hnum.
    change (map (fun d : Z => getitem x00 charset d) ds)
      with (map (getitem x00 charset) ds) in Hnum.
    rewrite Hmap, Hloop in Hnum. now injection Hnum. }
  destruct (leading_decompose (getitem x00 charset 0) text) as [rest [Htext Hrest]].
  set (k := leading (fun w => Byte.eqb w (getitem x00 charset 0)) text) in *.
  assert (Hvalid' : forall c, In c rest -> dict_lookup lookup c <> None).
  { intros c Hc. apply Hvalid. rewrite Htext. apply in_or_app. now right. }
  destruct (map_symbol_ordinal lookup charset base rest Hidx Hvalid')
    as [Hmapr Hdr].
  set (dr := map (ordinal lookup) rest) in *.
  assert (Hzr : no_leading_zero dr).
  { unfold dr. destruct rest as [|c rest']; [exact I|].
    cbn [map no_leading_zero]. intros Hc0.
    cbn [leading] in Hrest.
    destruct (Byte.eqb c (getitem x00 charset 0)) eqn:Ec; [discriminate|].
    unfold ordinal in Hc0.
    destruct (dict_lookup lookup c) as [d|] eqn:E.
    - destruct (Hidx c d E) as [_ Hc]. subst d.
      rewrite Hc, byte_eqb_refl in Ec. discriminate.
    - apply (Hvalid' c); [now left | exact E]. }
  assert (Hnr : n = horner base dr).
  { rewrite <- Hn. unfold ds. rewrite Htext at 1.
    rewrite map_app, map_repeat.
    replace (ordinal lookup (getitem x00 charset 0)) with 0.
    - apply horner_zeros.
    - pose proof (inverts_get lookup charset (Z.to_nat base) 0 Hinv
                    ltac:(lia)) as H0.
      unfold dict_get in H0. unfold ordinal.
      destruct (dict_lookup lookup (getitem x00 charset 0)); congruence. }
  assert (Hn0 : 0 <= n).
  { rewrite Hnr. apply (horner_nonneg base Hbase); exact Hdr. }
  (* the bytes the decoder returns *)
  set (tail := if n =? 0 then [] else uint_to_bytes n).
  assert (Hraw : (if (0 <? k)%nat then repeat x00 k ++ tail else tail) =
                 repeat x00 k ++ tail).
  { destruct (Nat.ltb_spec 0 k) as [_|Hk]; [reflexivity|].
    assert (Hk0 : k = 0%nat) by lia. now rewrite Hk0. }
  rewrite Hraw.
  assert (Htail : bytes_to_uint tail = n /\
                  leading (fun w => Byte.eqb w x00) tail = 0%nat).
  { unfold tail. destruct (Z.eqb_spec n 0) as [->|Hne]; [split; reflexivity|].
    destruct (uint_to_bytes_digits n ltac:(lia)) as [dn [-> [Hdn [Hzn Hvn]]]].
    split.
    - now rewrite bytes_to_uint_horner, map_ord_chr.
    - destruct dn as [|d dn]; [reflexivity|].
      apply Forall_inv in Hdn. cbn in Hzn. cbn [map leading].
      destruct (Byte.eqb (chr d) x00) eqn:E; [|reflexivity].
      apply Byte.byte_dec_bl in E.
      assert (Hd : ord (chr d) = 0) by now rewrite E.
      rewrite ord_chr in Hd by exact Hdn. contradiction. }
  destruct Htail as [Htn Htl].
  unfold encode_naive.
  assert (Hnum : bytes_to_uint (repeat x00 k ++ tail) = n).
  { rewrite bytes_to_uint_horner, map_app, map_repeat.
    change (ord x00) with 0. rewrite horner_zeros.
    now rewrite <- bytes_to_uint_horner. }
  rewrite Hnum. change (getitem x00 ZERO_BYTE 0) with x00.
  rewrite leading_repeat by reflexivity. rewrite Htl, Nat.add_0_r.
  destruct (digits_loop_spec base Hbase (iterations n) n []
              (iterations_enough n Hn0)) as [dn [Hd [Hdn [Hzn Hvn]]]].
  rewrite app_nil_r in Hd.
  pose proof (encode_naive_loop_digits base charset (iterations n) n [])
    as Henc.
  change (map (fun d : Z => getitem x00 charset d))
    with (map (getitem x00 charset)) in Henc.
  change (map (getitem x00 charset) []) with (@nil byte) in Henc.
  rewrite Henc, Hd. etransitivity; [|symmetry; exact Htext]. f_equal.
  rewrite <- Hmapr. f_equal.
  apply (horner_inj base Hbase); try assumption. now rewrite Hvn.
Qed.

End NaiveCanonical.

(** The naive decoders lose nothing but whitespace: for the bytes they
    return, the encoders write the text they were given, less its
    whitespace.  Two texts that decode to the same bytes differ in
    whitespace only. *)
Theorem naive_encode_decode (encoded raw_bytes : bytes) :
  (b58decode_naive encoded ASCII58_CHARSET ASCII58_ORDS = Ok raw_bytes ->
   b58encode_naive raw_bytes ASCII58_CHARSET true ZERO_BYTE =
   strip_whitespace encoded) /\
  (b62decode_naive encoded ASCII62_CHARSET ASCII62_ORDS = Ok raw_bytes ->
   b62encode_naive raw_bytes ASCII62_CHARSET true ZERO_BYTE =
   strip_whitespace encoded).
Proof.
  split.
  - apply encode_decode_naive.
    + lia.
    + exact ASCII58_ORDS_inverts.
    + exact ASCII58_ORDS_indexes.
  - apply encode_decode_naive.
    + lia.
    + exact ASCII62_ORDS_inverts.
    + exact ASCII62_ORDS_indexes.
Qed.

Lemma naive_encode_decode_witness :
  b58encode_naive [x00; x01; x02] ASCII58_CHARSET true ZERO_BYTE
    = b "15T" /\
  b62encode_naive [x00; x08; x9d] ASCII62_CHARSET true ZERO_BYTE = b "0ZZ".
Proof.
  split.
  - apply (proj1 (naive_encode_decode (b " 1 5T") [x00; x01; x02])).
    vm_compute. reflexivity.
  - apply (proj2 (naive_encode_decode (b "0Z Z") [x00; x08; x9d])).
    vm_compute. reflexivity.
Defined.

(** ** Random bits and numbers *)

Lemma bytes_to_uint_cons (c : byte) (s : bytes) :
  bytes_to_uint (c :: s) = ord c * 256 ^ len s + bytes_to_uint s.
Proof.
  rewrite !bytes_to_uint_horner. cbn [map].
  induction s as [|c' s IH] using rev_ind.
  - unfold horner, len. cbn. lia.
  - rewrite map_app. cbn [map].
    change (ord c :: map ord s ++ [ord c'])
      with ((ord c :: map ord s) ++ [ord c']).
    rewrite !horner_app, IH, len_app.
    change (len [c']) with 1.
    rewrite Z.pow_add_r by (try apply len_nonneg; lia). lia.
Qed.

Lemma bytes_to_uint_bound (s : bytes) :
  0 <= bytes_to_uint s < 256 ^ len s.
Proof.
  induction s as [|c s IH].
  - unfold bytes_to_uint, len. cbn. lia.
  - rewrite bytes_to_uint_cons.
    replace (len (c :: s)) with (len s + 1) by (unfold len; cbn [length]; lia).
    rewrite Z.pow_add_r by (try apply len_nonneg; lia).
    pose proof (ord_range c). nia.
Qed.

Lemma generate_random_bits_spec_cases {rng : Type} (n_bits : Z)
    (rand_func : Z -> rng -> bytes * rng) (st : rng) :
  returns_count rand_func ->
  (n_bits <= 0 -> generate_random_bits n_bits rand_func st = Raise ValueError)
  /\
  (0 < n_bits ->
   exists random_bytes st',
     generate_random_bits n_bits rand_func st = Ok (random_bytes, st') /\
     len random_bytes = (n_bits + 7) / 8 /\
     0 <= bytes_to_long random_bytes < 2 ^ n_bits).
Proof.
  intros Hcount. unfold generate_random_bits. split.
  - intros Hn. destruct (Z.leb_spec n_bits 0); [reflexivity | lia].
  - intros Hn. destruct (Z.leb_spec n_bits 0); [lia|].
    pose proof (Hcount (n_bits / 8) st ltac:(apply Z.div_pos; lia)) as Hq.
    destruct (rand_func (n_bits / 8) st) as [random_bytes st1].
    cbn [fst] in Hq.
    pose proof (bytes_to_uint_bound random_bytes) as Hb. rewrite Hq in Hb.
    assert (Hpow : 256 ^ (n_bits / 8) = 2 ^ (8 * (n_bits / 8))).
    { change 256 with (2 ^ 8). rewrite <- Z.pow_mul_r; [reflexivity|lia|].
      apply Z.div_pos; lia. }
    destruct (Z.eqb_spec (n_bits mod 8) 0) as [Hr|Hr]; cbn [negb].
    + exists random_bytes, st1. split; [reflexivity|].
      split; [zlia|]. unfold bytes_to_long.
      replace (2 ^ n_bits) with (256 ^ (n_bits / 8)); [exact Hb|].
      rewrite Hpow. f_equal. zlia.
    + pose proof (Hcount 1 st1 ltac:(lia)) as H1.
      destruct (rand_func 1 st1) as [one st2]. cbn [fst] in H1.
      destruct one as [|c [|? ?]];
        try (unfold len in H1; cbn [length] in H1; lia).
      cbn [ord_of_bytes bind].
      set (r := n_bits mod 8) in *.
      assert (Hrr : 0 < r < 8) by (unfold r in *; zlia).
      pose proof (ord_range c) as Hc.
      assert (Hoff : 0 <= Z.shiftr (ord c) (8 - r) < 2 ^ r).
      { rewrite Z.shiftr_div_pow2 by lia. split.
        - apply Z.div_pos; lia.
        - apply Z.div_lt_upper_bound; [lia|].
          rewrite <- Z.pow_add_r by lia.
          replace (8 - r + r) with 8 by lia. lia. }
      assert (H2r : 2 ^ r <= 128).
      { change 128 with (2 ^ 7). apply Z.pow_le_mono_r; lia. }
      exists (chr (Z.shiftr (ord c) (8 - r)) :: random_bytes), st2.
      split; [reflexivity|]. split.
      * replace (len (_ :: random_bytes)) with (len random_bytes + 1)
          by (unfold len; cbn [length]; lia).
        rewrite Hq. unfold r in Hrr. zlia.
      * unfold bytes_to_long. rewrite bytes_to_uint_cons, Hq.
        rewrite ord_chr by lia.
        replace (2 ^ n_bits) with (2 ^ r * 256 ^ (n_bits / 8)); [nia|].
        rewrite Hpow, <- Z.pow_add_r; [f_equal; unfold r; zlia | lia |].
        apply Z.mul_nonneg_nonneg; [lia | apply Z.div_pos; lia].
Qed.

(** [generate_random_bits] rejects a number of bits that is not positive
    and otherwise returns, from a generator that returns as many bytes as
    asked, the bytes of a number below [2^n_bits], one byte per eight bits
    begun. *)
Theorem generate_random_bits_spec {rng : Type} (n_bits : Z)
    (rand_func : Z -> rng -> bytes * rng) (st : rng) :
  returns_count rand_func ->
  (n_bits <= 0 -> generate_random_bits n_bits rand_func st = Raise ValueError)
  /\
  (0 < n_bits ->
   exists random_bytes st',
     generate_random_bits n_bits rand_func st = Ok (random_bytes, st') /\
     len random_bytes = (n_bits + 7) / 8 /\
     0 <= bytes_to_long random_bytes < 2 ^ n_bits).
Proof. exact (generate_random_bits_spec_cases n_bits rand_func st). Qed.

Lemma generate_random_ulong_atmost_spec_cases {rng : Type} (n_bits : Z)
    (rand_func : Z -> rng -> bytes * rng) (st : rng) :
  (n_bits <= 0 ->
   generate_random_ulong_atmost n_bits rand_func st = Raise ValueError) /\
  (0 < n_bits ->
   exists value st',
     generate_random_ulong_atmost n_bits rand_func st = Ok (value, st') /\
     0 <= value <= 2 ^ n_bits - 1).
Proof.
  unfold generate_random_ulong_atmost. split.
  - intros Hn. destruct (Z.leb_spec n_bits 0); [reflexivity | lia].
  - intros Hn. destruct (Z.leb_spec n_bits 0); [lia|].
    destruct (rand_func _ st) as [random_bytes st1].
    exists (Z.land (Z.shiftl 1 n_bits - 1) (bytes_to_long random_bytes)), st1.
    split; [reflexivity|].
    replace (Z.land (Z.shiftl 1 n_bits - 1) (bytes_to_long random_bytes))
      with (bytes_to_long random_bytes mod 2 ^ n_bits)
      by (now rewrite Z.shiftl_1_l, Z.sub_1_r, <- Z.ones_equiv, Z.land_comm,
            Z.land_ones by lia).
    pose proof (Z.mod_pos_bound (bytes_to_long random_bytes) (2 ^ n_bits)
                  ltac:(apply Z.pow_pos_nonneg; lia)).
    lia.
Qed.

(** [generate_random_ulong_atmost] rejects a number of bits that is not
    positive and otherwise returns a number in [0, 2^n_bits - 1], whatever
    the generator returns. *)
Theorem generate_random_ulong_atmost_spec {rng : Type} (n_bits : Z)
    (rand_func : Z -> rng -> bytes * rng) (st : rng) :
  (n_bits <= 0 ->
   generate_random_ulong_atmost n_bits rand_func st = Raise ValueError) /\
  (0 < n_bits ->
   exists value st',
     generate_random_ulong_atmost n_bits rand_func st = Ok (value, st') /\
     0 <= value <= 2 ^ n_bits - 1).
Proof. exact (generate_random_ulong_atmost_spec_cases n_bits rand_func st). Qed.

Lemma constant_bytes_returns_count (c : byte) :
  returns_count (constant_bytes c).
Proof.
  intros count st Hc. unfold constant_bytes. cbn [fst].
  rewrite len_repeat. lia.
Qed.

Lemma generate_random_bits_spec_witness :
  generate_random_bits 0 (constant_bytes xff) tt = Raise ValueError /\
  exists random_bytes st',
    generate_random_bits 17 (constant_bytes xff) tt = Ok (random_bytes, st') /\
    len random_bytes = (17 + 7) / 8 /\
    0 <= bytes_to_long random_bytes < 2 ^ 17.
Proof.
  split.
  - apply (proj1 (generate_random_bits_spec 0 (constant_bytes xff) tt
                    (constant_bytes_returns_count xff))). lia.
  - apply (proj2 (generate_random_bits_spec 17 (constant_bytes xff) tt
                    (constant_bytes_returns_count xff))). lia.
Defined.

Lemma generate_random_ulong_atmost_spec_witness :
  generate_random_ulong_atmost (-3) (constant_bytes xff) tt
    = Raise ValueError /\
  exists value st',
    generate_random_ulong_atmost 17 (constant_bytes xff) tt
      = Ok (value, st') /\
    0 <= value <= 2 ^ 17 - 1.
Proof.
  split.
  - apply (proj1 (generate_random_ulong_atmost_spec (-3)
                    (constant_bytes xff) tt)). lia.
  - apply (proj2 (generate_random_ulong_atmost_spec 17
                    (constant_bytes xff) tt)). lia.
Defined.

Lemma lor_high_bit (value n_bits : Z) :
  0 < n_bits -> 0 <= value < 2 ^ n_bits ->
  2 ^ (n_bits - 1) <= Z.lor value (Z.shiftl 1 (n_bits - 1)) <= 2 ^ n_bits - 1.
Proof.
  intros Hn Hv. rewrite Z.shiftl_1_l.
  assert (Hp : 0 < 2 ^ (n_bits - 1)) by (apply Z.pow_pos_nonneg; lia).
  assert (Hlor : 0 < Z.lor value (2 ^ (n_bits - 1))).
  { pose proof (proj2 (Z.lor_nonneg value (2 ^ (n_bits - 1)))
                  ltac:(split; lia)) as H0.
    destruct (Z.eq_dec (Z.lor value (2 ^ (n_bits - 1))) 0) as [E|]; [|lia].
    apply Z.lor_eq_0_iff in E. lia. }
  assert (Hlog : Z.log2 (Z.lor value (2 ^ (n_bits - 1))) = n_bits - 1).
  { rewrite Z.log2_lor by lia. rewrite Z.log2_pow2 by lia.
    destruct (Z.eq_dec value 0) as [->|Hne]; [cbn; lia|].
    assert (Z.log2 value < n_bits) by (apply Z.log2_lt_pow2; lia). lia. }
  pose proof (Z.log2_spec _ Hlor) as Hs. rewrite Hlog in Hs.
  replace (Z.succ (n_bits - 1)) with n_bits in Hs by lia. lia.
Qed.

(** [generate_random_ulong_exactly] rejects a number of bits that is not
    positive and otherwise returns, from a generator that returns as many
    bytes as asked, a number of exactly [n_bits] bits: between
    [2^(n_bits-1)] and [2^n_bits - 1]. *)
Theorem generate_random_ulong_exactly_spec {rng : Type} (n_bits : Z)
    (rand_func : Z -> rng -> bytes * rng) (st : rng) :
  returns_count rand_func ->
  (n_bits <= 0 ->
   generate_random_ulong_exactly n_bits rand_func st = Raise ValueError) /\
  (0 < n_bits ->
   exists value st',
     generate_random_ulong_exactly n_bits rand_func st = Ok (value, st') /\
     2 ^ (n_bits - 1) <= value <= 2 ^ n_bits - 1).
Proof.
  intros Hcount. unfold generate_random_ulong_exactly.
  destruct (generate_random_bits_spec_cases n_bits rand_func st Hcount)
    as [Hneg Hpos].
  split.
  - intros Hn. now rewrite (Hneg Hn).
  - intros Hn. destruct (Hpos Hn) as [bs [st' [-> [_ Hb]]]].
    cbn [bind fst snd]. eexists _, st'. split; [reflexivity|].
    now apply lor_high_bit.
Qed.

Lemma generate_random_ulong_exactly_spec_witness :
  generate_random_ulong_exactly 0 (constant_bytes x00) tt
    = Raise ValueError /\
  exists value st',
    generate_random_ulong_exactly 17 (constant_bytes x00) tt
      = Ok (value, st') /\
    2 ^ (17 - 1) <= value <= 2 ^ 17 - 1.
Proof.
  split.
  - apply (proj1 (generate_random_ulong_exactly_spec 0 (constant_bytes x00)
                    tt (constant_bytes_returns_count x00))). lia.
  - apply (proj2 (generate_random_ulong_exactly_spec 17 (constant_bytes x00)
                    tt (constant_bytes_returns_count x00))). lia.
Defined.

(** ** Encoded text with whitespace added *)

(** A text that is the RFC1924 encoding of [x] with whitespace added
    anywhere (wrapped lines, indentation) decodes to [x]. *)
Theorem rfc1924_b85decode_wrapped (text raw_bytes : bytes) :
  strip_whitespace text = rfc1924_b85encode raw_bytes false ->
  rfc1924_b85decode text = Ok raw_bytes.
Proof.
  intros Htext.
  rewrite <- (b85decode_b85encode_plain RFC1924_ORDS RFC1924_CHARS
                RFC1924_ORDS_inverts RFC1924_CHARS_len
                RFC1924_CHARS_no_whitespace raw_bytes None None
                ZERO_GROUP_CHAR eq_refl eq_refl).
  unfold rfc1924_b85decode. apply b85decode_ignores_whitespace.
  rewrite Htext. symmetry. apply strip_whitespace_id.
  unfold rfc1924_b85encode. rewrite b85encode_unfold.
  cbn [or_empty app]. rewrite app_nil_r.
  apply (symbols_no_whitespace RFC1924_CHARS RFC1924_CHARS_no_whitespace).
  apply b85encode_chars_symbols. exact RFC1924_CHARS_len.
Qed.

Lemma rfc1924_b85decode_wrapped_witness :
  rfc1924_b85decode (b " Xk~0 {Zv" ++ [x0a]) = Ok (b "hello").
Proof.
  apply (rfc1924_b85decode_wrapped (b " Xk~0 {Zv" ++ [x0a]) (b "hello")).
  vm_compute. reflexivity.
Defined.

Lemma strip_whitespace_idem (s : bytes) :
  strip_whitespace (strip_whitespace s) = strip_whitespace s.
Proof.
  apply strip_whitespace_id. unfold no_whitespace, strip_whitespace.
  apply forallb_forall. intros c Hc. now apply filter_In in Hc.
Qed.

Lemma decode_naive_strip (base : Z) (encoded : bytes) (charset : list byte)
    (lookup : dict byte Z) :
  decode_naive base encoded charset lookup =
  decode_naive base (strip_whitespace encoded) charset lookup.
Proof. unfold decode_naive. now rewrite strip_whitespace_idem. Qed.

(** A text that is the naive Base58 or Base62 encoding of [x] with
    whitespace added anywhere decodes to [x]. *)
Theorem naive_decoders_wrapped (text raw_bytes : bytes) :
  (strip_whitespace text =
     b58encode_naive raw_bytes ASCII58_CHARSET true ZERO_BYTE ->
   b58decode_naive text ASCII58_CHARSET ASCII58_ORDS = Ok raw_bytes) /\
  (strip_whitespace text =
     b62encode_naive raw_bytes ASCII62_CHARSET true ZERO_BYTE ->
   b62decode_naive text ASCII62_CHARSET ASCII62_ORDS = Ok raw_bytes).
Proof.
  split; intros Htext.
  - unfold b58decode_naive. rewrite decode_naive_strip, Htext.
    apply decode_encode_naive.
    + lia.
    + reflexivity.
    + exact ASCII58_ORDS_inverts.
    + vm_compute. reflexivity.
  - unfold b62decode_naive. rewrite decode_naive_strip, Htext.
    apply decode_encode_naive.
    + lia.
    + reflexivity.
    + exact ASCII62_ORDS_inverts.
    + vm_compute. reflexivity.
Qed.

Lemma naive_decoders_wrapped_witness :
  b58decode_naive (b " 1 5T") ASCII58_CHARSET ASCII58_ORDS
    = Ok [x00; x01; x02] /\
  b62decode_naive (b "0Z Z") ASCII62_CHARSET ASCII62_ORDS
    = Ok [x00; x08; x9d].
Proof.
  split.
  - apply (proj1 (naive_decoders_wrapped (b " 1 5T") [x00; x01; x02])).
    vm_compute. reflexivity.
  - apply (proj2 (naive_decoders_wrapped (b "0Z Z") [x00; x08; x9d])).
    vm_compute. reflexivity.
Defined.

(** ** The Base85 alphabets *)

Lemma inverts_NoDup (ords : dict byte Z) (chars : list byte) (n : nat) :
  inverts ords chars n = true -> length chars = n -> NoDup chars.
Proof.
  intros Hinv Hlen. apply (NoDup_nth chars x00). intros i j Hi Hj Heq.
  pose proof (inverts_get ords chars n (Z.of_nat i) Hinv ltac:(lia)) as Gi.
  pose proof (inverts_get ords chars n (Z.of_nat j) Hinv ltac:(lia)) as Gj.
  unfold getitem in Gi, Gj. rewrite !Nat2Z.id in *. rewrite Heq in Gi.
  rewrite Gi in Gj. injection Gj. lia.
Qed.

Lemma alphabet_intro (ords : dict byte Z) (chars : list byte) (n : nat) :
  inverts ords chars n = true -> indexes ords chars (Z.of_nat n) ->
  length chars = n -> no_whitespace chars ->
  alphabet ords chars (Z.of_nat n).
Proof.
  intros Hinv Hidx Hlen Hns. unfold alphabet, len.
  split; [now rewrite Hlen|]. split; [now apply (inverts_NoDup ords _ n)|].
  split; [exact Hns|]. intros c d. split; [apply Hidx|].
  intros [Hd <-]. pose proof (inverts_get ords chars n d Hinv Hd) as H.
  unfold dict_get in H.
  destruct (dict_lookup ords (getitem x00 chars d)); congruence.
Qed.

(** The two alphabets of [base85.py] have 85 distinct symbols each, none
    of them whitespace, and their tables of ordinals are the inverses of
    the character sets; the ASCII85 symbol of ordinal [d] is the byte
    [d + 33], and the compaction symbol is not one of them. *)
Theorem base85_alphabets :
  alphabet ASCII85_ORDS ASCII85_CHARS 85 /\
  alphabet RFC1924_ORDS RFC1924_CHARS 85 /\
  (forall d, 0 <= d < 85 -> getitem x00 ASCII85_CHARS d = chr (d + 33)) /\
  ~ In "z"%byte ASCII85_CHARS.
Proof.
  split; [|split; [|split]].
  - apply (alphabet_intro ASCII85_ORDS ASCII85_CHARS 85).
    + exact ASCII85_ORDS_inverts.
    + exact ASCII85_ORDS_indexes.
    + reflexivity.
    + exact ASCII85_CHARS_no_whitespace.
  - apply (alphabet_intro RFC1924_ORDS RFC1924_CHARS 85).
    + exact RFC1924_ORDS_inverts.
    + exact RFC1924_ORDS_indexes.
    + reflexivity.
    + exact RFC1924_CHARS_no_whitespace.
  - intros d Hd.
    assert (H : forallb (fun d => Byte.eqb (getitem x00 ASCII85_CHARS d)
                                           (chr (d + 33))) (range 85) = true)
      by (vm_compute; reflexivity).
    rewrite forallb_forall in H.
    apply Byte.byte_dec_bl, H, in_range. exact Hd.
  - exact ASCII85_CHARS_no_z.
Qed.

(** ** Every way of failing, for arguments of any type *)

Lemma ASCII85_alphabet : alphabet ASCII85_ORDS ASCII85_CHARS 85.
Proof.
  apply (alphabet_intro ASCII85_ORDS ASCII85_CHARS 85).
  - exact ASCII85_ORDS_inverts.
  - exact ASCII85_ORDS_indexes.
  - reflexivity.
  - exact ASCII85_CHARS_no_whitespace.
Qed.

(** Every way [b85decode] fails, from its first line and for arguments of
    any type, the tables being an alphabet of 85 symbols (so that
    [_base85_chars[84]] exists and the values packed are not negative): it
    raises [TypeError] exactly when [prefix or b('')], [suffix or b('')],
    [_compact_char] or [encoded] is not a byte string; it raises
    [ValueError] only with [_uncompact_zero]; and a call returns bytes or
    raises [TypeError], [ValueError] or [OverflowError]: the [KeyError] of
    a failed lookup never leaves it. *)
Theorem b85decode_exceptions (encoded prefix suffix _compact_char : object)
    (ords : dict byte Z) (chars : list byte) (ign unc : bool) :
  alphabet ords chars 85 ->
  let typed :=
    is_bytes (or_empty_bytes prefix) && is_bytes (or_empty_bytes suffix)
    && is_bytes _compact_char && is_bytes encoded in
  let outcome :=
    b85decode_untyped encoded prefix suffix ords chars ign unc
                      _compact_char in
  (outcome = Raise TypeError <-> typed = false) /\
  (outcome = Raise ValueError -> unc = true) /\
  ((exists raw_bytes, outcome = Ok raw_bytes) \/ outcome = Raise TypeError \/
   outcome = Raise ValueError \/ outcome = Raise OverflowError).
Proof.
  intros _ typed outcome. subst typed outcome. unfold b85decode_untyped.
  destruct (is_bytes (or_empty_bytes prefix)),
           (is_bytes (or_empty_bytes suffix)), (is_bytes _compact_char),
           (is_bytes encoded); cbn [andb negb];
    try (split; [split; reflexivity | split; [discriminate | tauto]]).
  set (r := b85decode _ _ _ _ _ _ _ _).
  pose proof (b85decode_raise (bytes_of encoded)
                (Some (bytes_of (or_empty_bytes prefix)))
                (Some (bytes_of (or_empty_bytes suffix))) ords chars ign unc
                (bytes_of _compact_char)) as H.
  fold r in H. destruct r as [raw|e].
  - split; [split; discriminate|]. split; [discriminate|]. left. now exists raw.
  - destruct (H e eq_refl) as [[-> Hu]| ->].
    + split; [split; discriminate|]. split; [now intros _|]. tauto.
    + split; [split; discriminate|]. split; [discriminate|]. tauto.
Qed.

Lemma b85decode_exceptions_witness :
  b85decode_untyped (Bytes (b "abcde")) (Int 7) (Other false) ASCII85_ORDS
    ASCII85_CHARS true true (Bytes ZERO_GROUP_CHAR) = Raise TypeError /\
  b85decode_untyped (Bytes (b "abzcd")) (Int 0) (Other false) ASCII85_ORDS
    ASCII85_CHARS true false (Bytes ZERO_GROUP_CHAR) <> Raise ValueError.
Proof.
  split.
  - apply (proj1 (b85decode_exceptions (Bytes (b "abcde")) (Int 7)
                    (Other false) (Bytes ZERO_GROUP_CHAR) ASCII85_ORDS
                    ASCII85_CHARS true true ASCII85_alphabet)).
    reflexivity.
  - intros H.
    pose proof (proj1 (proj2 (b85decode_exceptions (Bytes (b "abzcd")) (Int 0)
                    (Other false) (Bytes ZERO_GROUP_CHAR) ASCII85_ORDS
                    ASCII85_CHARS true false ASCII85_alphabet)) H) as Hu.
    discriminate Hu.
Defined.

Lemma decode_naive_untyped_raise (base : Z) (encoded : object)
    (charset : list byte) (lookup : dict byte Z) (e : exn) :
  (if negb (is_bytes encoded) then Raise TypeError
   else decode_naive base (bytes_of encoded) charset lookup) = Raise e <->
  (e = TypeError /\ is_bytes encoded = false) \/
  (e = KeyError /\
   exists s c, encoded = Bytes s /\ In c (strip_whitespace s) /\
               dict_lookup lookup c = None).
Proof.
  destruct encoded as [s|n|t]; cbn [is_bytes negb bytes_of].
  - rewrite decode_naive_raise. split.
    + intros [-> [c [Hin Hc]]]. right. split; [reflexivity|]. now exists s, c.
    + intros [[_ H]|[-> [s' [c [[= <-] [Hin Hc]]]]]]; [discriminate H|].
      split; [reflexivity|]. now exists c.
  - split.
    + intros [= <-]. now left.
    + intros [[-> _]|[_ [s [c [H _]]]]]; [reflexivity | discriminate H].
  - split.
    + intros [= <-]. now left.
    + intros [[-> _]|[_ [s [c [H _]]]]]; [reflexivity | discriminate H].
Qed.

(** Every way [b58decode_naive] and [b62decode_naive] fail, from their
    first line and for an argument of any type: they raise [TypeError]
    exactly when the argument is not a byte string, and they let the
    [KeyError] of the lookup escape exactly when the byte string holds,
    whitespace aside, a symbol that is not in the alphabet; they raise
    nothing else. *)
Theorem naive_decoders_exceptions (encoded : object) (e : exn) :
  (b58decode_naive_untyped encoded ASCII58_CHARSET ASCII58_ORDS = Raise e <->
   (e = TypeError /\ is_bytes encoded = false) \/
   (e = KeyError /\
    exists s c, encoded = Bytes s /\ In c (strip_whitespace s) /\
                dict_lookup ASCII58_ORDS c = None)) /\
  (b62decode_naive_untyped encoded ASCII62_CHARSET ASCII62_ORDS = Raise e <->
   (e = TypeError /\ is_bytes encoded = false) \/
   (e = KeyError /\
    exists s c, encoded = Bytes s /\ In c (strip_whitespace s) /\
                dict_lookup ASCII62_ORDS c = None)).
Proof.
  split; apply decode_naive_untyped_raise.
Qed.

Lemma naive_decoders_exceptions_witness :
  b58decode_naive_untyped (Other false) ASCII58_CHARSET ASCII58_ORDS
    = Raise TypeError /\
  b58decode_naive_untyped (Bytes (b "2 0g")) ASCII58_CHARSET ASCII58_ORDS
    = Raise KeyError /\
  b62decode_naive_untyped (Int 62) ASCII62_CHARSET ASCII62_ORDS
    = Raise TypeError /\
  b62decode_naive_untyped (Bytes (b "2 0-g")) ASCII62_CHARSET ASCII62_ORDS
    = Raise KeyError.
Proof.
  split; [|split; [|split]].
  - apply (proj1 (naive_decoders_exceptions (Other false) TypeError)).
    left. split; reflexivity.
  - apply (proj1 (naive_decoders_exceptions (Bytes (b "2 0g")) KeyError)).
    right. split; [reflexivity|].
    exists (b "2 0g"), "0"%byte. split; [reflexivity|].
    split; [vm_compute; tauto | reflexivity].
  - apply (proj2 (naive_decoders_exceptions (Int 62) TypeError)).
    left. split; reflexivity.
  - apply (proj2 (naive_decoders_exceptions (Bytes (b "2 0-g")) KeyError)).
    right. split; [reflexivity|].
    exists (b "2 0-g"), "-"%byte. split; [reflexivity|].
    split; [vm_compute; tauto | reflexivity].
Defined.

Lemma generate_random_ulong_between_loop_cases {rng : Type} (fuel : nat)
    (bits r : Z) (rand_func : Z -> rng -> bytes * rng) (value : Z) (st : rng) :
  0 < bits -> 0 <= value ->
  generate_random_ulong_between_loop fuel bits r rand_func value st = None \/
  exists value' st',
    generate_random_ulong_between_loop fuel bits r rand_func value st
      = Some (Ok (value', st')) /\ 0 <= value' <= r.
Proof.
  intros Hbits. revert value st.
  induction fuel as [|fuel IH]; intros value st Hv;
    cbn [generate_random_ulong_between_loop];
    destruct (Z.gtb_spec value r) as [Hgt|Hle].
  - now left.
  - right. exists value, st. split; [reflexivity | lia].
  - destruct (proj2 (generate_random_ulong_atmost_spec_cases bits rand_func st)
                Hbits) as [v [st' [-> Hv']]].
    apply IH. lia.
  - right. exists value, st. split; [reflexivity | lia].
Qed.

(** Every outcome of [generate_random_ulong_between], from its first line:
    it raises [TypeError] when [low] or [high] is not an integer; for
    integers it raises [ValueError] when [low >= high] and also when
    [long_bit_length(high - low - 1)] is not positive, which
    [generate_random_ulong_atmost] rejects; and in every other case it
    raises nothing: either it is still drawing after [fuel] rejected
    draws, or it has returned a number that is at least [low] and below
    [high].  Nothing here depends on what the generator returns. *)
Theorem generate_random_ulong_between_spec {rng : Type} (fuel : nat)
    (long_bit_length : Z -> Z) (low high : Z)
    (rand_func : Z -> rng -> bytes * rng) (st : rng) :
  (forall low_object high_object : object,
     is_integer low_object && is_integer high_object = false ->
     generate_random_ulong_between_untyped fuel long_bit_length low_object
       high_object rand_func st = Some (Raise TypeError)) /\
  (high <= low \/ long_bit_length (high - low - 1) <= 0 ->
   generate_random_ulong_between_untyped fuel long_bit_length (Int low)
     (Int high) rand_func st = Some (Raise ValueError)) /\
  (low < high -> 0 < long_bit_length (high - low - 1) ->
   generate_random_ulong_between_untyped fuel long_bit_length (Int low)
     (Int high) rand_func st = None \/
   exists value st',
     generate_random_ulong_between_untyped fuel long_bit_length (Int low)
       (Int high) rand_func st = Some (Ok (value, st')) /\
     low <= value < high).
Proof.
  unfold generate_random_ulong_between_untyped. split; [|split].
  - intros low' high' H. now rewrite H.
  - cbn [is_integer andb negb int_of]. unfold generate_random_ulong_between.
    intros H. destruct (Z.geb_spec low high) as [Hge|Hlt]; [reflexivity|].
    destruct H as [H|H]; [lia|].
    now rewrite (proj1 (generate_random_ulong_atmost_spec_cases _ rand_func st)
                   H).
  - cbn [is_integer andb negb int_of]. unfold generate_random_ulong_between.
    intros Hlt Hbits. destruct (Z.geb_spec low high) as [Hge|_]; [lia|].
    destruct (proj2 (generate_random_ulong_atmost_spec_cases _ rand_func st)
                Hbits) as [v [st1 [-> Hv]]].
    destruct (generate_random_ulong_between_loop_cases fuel _
                (high - low - 1) rand_func v st1 Hbits ltac:(lia))
      as [-> | [v' [st' [-> Hv']]]].
    + now left.
    + right. exists (low + v'), st'. split; [reflexivity | lia].
Qed.

Lemma generate_random_ulong_between_spec_witness :
  generate_random_ulong_between_untyped 5 (fun r => Z.log2 r + 1)
    (Int 3) (Other false) scripted_bytes [x07; x05] = Some (Raise TypeError) /\
  generate_random_ulong_between_untyped 5 (fun r => Z.log2 r + 1)
    (Int 7) (Int 7) scripted_bytes [x07; x05] = Some (Raise ValueError) /\
  generate_random_ulong_between_untyped 5 (fun r => Z.log2 r + 1)
    (Int 3) (Int 10) scripted_bytes [x07; x05] = Some (Ok (8, [])) /\
  (generate_random_ulong_between_untyped 5 (fun r => Z.log2 r + 1)
     (Int 3) (Int 10) scripted_bytes [x07; x05] = None \/
   exists value st',
     generate_random_ulong_between_untyped 5 (fun r => Z.log2 r + 1)
       (Int 3) (Int 10) scripted_bytes [x07; x05] = Some (Ok (value, st')) /\
     3 <= value < 10).
Proof.
  split; [|split; [|split]].
  - apply (proj1 (generate_random_ulong_between_spec 5
                    (fun r => Z.log2 r + 1) 3 10 scripted_bytes [x07; x05])).
    reflexivity.
  - apply (proj1 (proj2 (generate_random_ulong_between_spec 5
                    (fun r => Z.log2 r + 1) 7 7 scripted_bytes [x07; x05]))).
    left. lia.
  - vm_compute. reflexivity.
  - apply (proj2 (proj2 (generate_random_ulong_between_spec 5
                    (fun r => Z.log2 r + 1) 3 10 scripted_bytes [x07; x05]))).
    + lia.
    + vm_compute. reflexivity.
Defined.
